(** * rtest: a file watcher that re-runs [go test]

    A shallow embedding of [main.go]: the startup walk that registers the
    watches ([initWatches]), the event loop with its throttle table
    ([handleEvents]), the dispatcher ([handleEvent]), the test runner
    ([runTestsForFile], [runTestsForDir], [runGoTest]) and the reader of the
    operator's input ([handleEnter]).

    The program is all effects, so the embedding passes an explicit state
    (the watcher's set of paths and the log of what the process did) and takes
    the answers of the operating system as an argument, the [World]. *)

From Stdlib Require Import ZArith Ascii String List Lia.
From stdpp Require Import base tactics option list strings gmap pretty.

Local Open Scope Z_scope.

(** ** Errors

    Go's [error] values, as far as the program can tell them apart. *)
Inductive error : Type :=
| errorString (msg : string)          (* an error of the os, of fsnotify or of exec, by its message *)
| ExitError (code : Z)                (* *exec.ExitError: the process ran and did not exit with 0 *)
| withMessage (cause : error) (msg : string)   (* errors.Wrap, errors.Wrapf *)
| SkipDir                             (* filepath.SkipDir *)
| SkipAll.                            (* filepath.SkipAll *)

#[global] Instance error_eq_dec : EqDecision error.
Proof. solve_decision. Defined.

Module errors.
(** [errors.Wrap(err, message)], on an [err] that is not nil. *)
Definition Wrap (err : error) (message : string) : error := withMessage err message.
(** [errors.Wrapf(err, format, args...)] with the format already expanded. *)
Definition Wrapf (err : error) (message : string) : error := withMessage err message.
End errors.

(** [err.Error()] *)
Fixpoint Error (e : error) : string :=
  match e with
  | errorString msg => msg
  | ExitError code => "exit status " +:+ pretty code
  | withMessage cause msg => msg +:+ ": " +:+ Error cause
  | SkipDir => "skip this directory"
  | SkipAll => "skip everything and stop the walk"
  end.

(** ** path/filepath, for the slash-separated paths of Unix

    The functions of Go's standard library that the program calls on its
    paths, written over the characters of the path. *)
Module filepath.

Definition IsPathSeparator (c : ascii) : bool := bool_decide (c = "/"%char).

Fixpoint dropSeparators (l : list ascii) : list ascii :=
  match l with
  | c :: l' => if IsPathSeparator c then dropSeparators l' else l
  | [] => []
  end.

Fixpoint untilSeparator (l : list ascii) : list ascii :=
  match l with
  | c :: l' => if IsPathSeparator c then [] else c :: untilSeparator l'
  | [] => []
  end.

Fixpoint fromSeparator (l : list ascii) : list ascii :=
  match l with
  | c :: l' => if IsPathSeparator c then l else fromSeparator l'
  | [] => []
  end.

(** [Base] returns the last element of the path: trailing separators are
    removed first, the empty path gives ".", a path of separators "/". *)
Definition Base (path : string) : string :=
  if decide (path = "") then "."
  else
    let stripped := dropSeparators (rev (list_ascii_of_string path)) in
    let last := rev (untilSeparator stripped) in
    if decide (last = []) then "/" else string_of_list_ascii last.

(** The loop of [Ext], run on the reversed path: it walks back from the
    end, stops at a separator and returns the suffix from the first dot it
    meets. [seen] is the part of the suffix already passed. *)
Fixpoint extFrom (r seen : list ascii) : list ascii :=
  match r with
  | [] => []
  | c :: r' =>
      if IsPathSeparator c then []
      else if decide (c = "."%char) then c :: seen
      else extFrom r' (c :: seen)
  end.

Definition Ext (path : string) : string :=
  string_of_list_ascii (extFrom (rev (list_ascii_of_string path)) []).

(** The elements of a path between its separators. *)
Fixpoint split (cur : list ascii) (l : list ascii) : list string :=
  match l with
  | [] => [string_of_list_ascii (rev cur)]
  | c :: l' =>
      if IsPathSeparator c then string_of_list_ascii (rev cur) :: split [] l'
      else split (c :: cur) l'
  end.

(** One element of the path in [Clean]: [dots] are the ".." elements kept
    at the front of a path that is not rooted, [out] the elements after
    them, last one first. *)
Definition cleanStep (rooted : bool) (acc : list string * list string) (e : string)
  : list string * list string :=
  let '(dots, out) := acc in
  if decide (e = "") then acc
  else if decide (e = ".") then acc
  else if decide (e = "..") then
    match out with
    | _ :: out' => (dots, out')
    | [] => if rooted then acc else (dots ++ [".."], [])
    end
  else (dots, e :: out).

Fixpoint joinWith (sep : string) (l : list string) : string :=
  match l with
  | [] => ""
  | [e] => e
  | e :: l' => e +:+ sep +:+ joinWith sep l'
  end.

(** [Clean]: the shortest path equivalent to [path] by lexical processing. *)
Definition Clean (path : string) : string :=
  match path with
  | "" => "."
  | String c _ =>
      let rooted := IsPathSeparator c in
      let '(dots, out) :=
        fold_left (cleanStep rooted) (split [] (list_ascii_of_string path)) ([], []) in
      let body := joinWith "/" (dots ++ rev out) in
      if rooted then "/" +:+ body
      else if decide (body = "") then "." else body
  end.

(** [Dir]: all but the last element of the path, cleaned. *)
Definition Dir (path : string) : string :=
  Clean (string_of_list_ascii (rev (fromSeparator (rev (list_ascii_of_string path))))).

(** [Join(dir, name)] *)
Definition Join (dir name : string) : string :=
  if decide (dir = "") then (if decide (name = "") then "" else Clean name)
  else Clean (dir +:+ "/" +:+ name).

End filepath.

(** ** fsnotify

    The event of the watcher: the path that changed and the mask of what
    happened to it. *)
Module fsnotify.

(** [type Op uint32]: a mask of the bits below. No arithmetic is done on it,
    only [&] against one of the bits. *)
Abbreviation uint32 := Z (only parsing).

Definition Create : uint32 := 1.
Definition Write : uint32 := 2.
Definition Remove : uint32 := 4.
Definition Rename : uint32 := 8.
Definition Chmod : uint32 := 16.

(** [op&flag == flag] *)
Definition has (op flag : uint32) : bool := Z.land op flag =? flag.

(** [Op.String], as in fsnotify 1.4: the names of the bits that are set,
    joined by a bar, and the empty string when none is. *)
Definition Op_String (op : uint32) : string :=
  filepath.joinWith "|"
    ((if has op Create then ["CREATE"] else []) ++
     (if has op Remove then ["REMOVE"] else []) ++
     (if has op Write then ["WRITE"] else []) ++
     (if has op Rename then ["RENAME"] else []) ++
     (if has op Chmod then ["CHMOD"] else [])).

Record Event : Type := { Name : string; Op : uint32 }.

End fsnotify.

Import fsnotify.

(** ** The process and its surroundings *)

(** The command line: [-rtest-debug] and the arguments left for [go test]
    ([flag.Args()]). Both are fixed once [flag.Parse] has run. *)
Record Flags : Type := {
  flagDebug : bool;
  flagArgs : list string
}.

(** What the process does that can be seen from outside, in the order it
    does it. *)
Inductive action : Type :=
| Stderr (line : string)                       (* fmt.Fprintln(os.Stderr, ...) *)
| StatCall (path : string)                     (* os.Stat(path) *)
| WatchAdd (path : string)                     (* watcher.Add(path) *)
| GoTest (dir : string) (args : list string).  (* the command go args..., run in dir *)

#[global] Instance action_eq_dec : EqDecision action.
Proof. solve_decision. Defined.

(** The watcher's set of paths (the WatchSet) and the log of actions. *)
Record State : Type := {
  watches : gset string;
  log : list action
}.

Definition emit (a : action) (st : State) : State :=
  {| watches := watches st; log := log st ++ [a] |}.

(** How a started command ends, or why it did not start. *)
Inductive outcome : Type :=
| Exited (code : Z)
| NotStarted (e : error).

(** [cmd.Run()]: nil when the command ran and exited with status 0, an
    [*ExitError] when it ran and exited otherwise, and the error of the launch
    when it could not be started. The command's output goes straight to the
    process's own streams and no goroutine copies it, so nothing else fails. *)
Definition cmd_Run (o : outcome) : option error :=
  match o with
  | Exited code => if decide (code = 0) then None else Some (ExitError code)
  | NotStarted e => Some e
  end.

(** The answers of the operating system while one event (or one line of
    input) is handled. *)
Record World : Type := {
  Stat : string -> error + bool;                (* os.Stat: an error, or fi.IsDir() *)
  Add : string -> option error;                 (* watcher.Add *)
  Run : string -> list string -> outcome        (* go args..., in the directory *)
}.

(** [debugln] *)
Definition debugln (cfg : Flags) (args : list string) (st : State) : State :=
  if flagDebug cfg then emit (Stderr (filepath.joinWith " " args)) st else st.

(** [watcher.Add(path)]: the path joins the set unless the watcher refuses it. *)
Definition watcher_Add (add : string -> option error) (path : string) (st : State)
  : State * option error :=
  let st := emit (WatchAdd path) st in
  match add path with
  | Some e => (st, Some e)
  | None => ({| watches := {[path]} ∪ watches st; log := log st |}, None)
  end.

(** ** Running the tests *)

Definition runGoTest (cfg : Flags) (w : World) (dir : string) (st : State)
  : State * option error :=
  let args := ["test"] in
  let otherArgs := flagArgs cfg in
  let args := args ++ otherArgs in
  let st := debugln cfg ["running: go"; filepath.joinWith " " args] st in
  let st := emit (GoTest dir args) st in
  (st, cmd_Run (Run w dir args)).

Definition runTestsForDir (cfg : Flags) (w : World) (dir : string) (st : State)
  : State * option error :=
  runGoTest cfg w dir st.

Definition runTestsForFile (cfg : Flags) (w : World) (file : string) (st : State)
  : State * option error :=
  let filename := filepath.Base file in
  let dir := filepath.Dir file in
  let ext := filepath.Ext filename in
  if decide (ext ≠ ".go") then (st, None)
  else runGoTest cfg w dir st.

(** ** The dispatcher *)

Definition handleEvent (cfg : Flags) (w : World) (ev : Event) (st : State)
  : State * option error :=
  if has (Op ev) Create then
    if decide (filepath.Base (Name ev) = "vendor") then (st, None)
    else
      let st := emit (StatCall (Name ev)) st in
      match Stat w (Name ev) with
      | inl err => (st, Some (errors.Wrapf err "failed to stat newly created file"))
      | inr isDir =>
          if negb isDir then runTestsForFile cfg w (Name ev) st
          else
            let st := debugln cfg ["Adding watch:"; Name ev] st in
            match watcher_Add (Add w) (Name ev) st with
            | (st, Some err) =>
                (st, Some (errors.Wrapf err ("error removing watch on " +:+ Name ev)))
            | (st, None) => (st, None)
            end
      end
  else if has (Op ev) Write then
    match runTestsForFile cfg w (Name ev) st with
    | (st, Some err) => (st, Some err)
    | (st, None) => (st, None)
    end
  else (st, None).

(** ** The event loop *)

(** Package time: an instant is its reading of the monotonic clock in
    nanoseconds, a [Duration] a count of nanoseconds in an int64. *)
Module time.

Abbreviation Time := Z (only parsing).
Abbreviation Duration := Z (only parsing).

Definition Millisecond : Duration := 1000000.
Definition maxDuration : Duration := 2 ^ 63 - 1.
Definition minDuration : Duration := - 2 ^ 63.

(** [t.Sub(u)]: the difference, or the largest (smallest) duration when the
    difference does not fit. *)
Definition Sub (t u : Time) : Duration :=
  let d := t - u in
  if d >? maxDuration then maxDuration
  else if d <? minDuration then minDuration
  else d.

End time.

(** What the [select] of the loop receives: a value of [watcher.Errors]
    (nil once that channel is closed), or an event of [watcher.Events]
    together with the reading of [time.Now()] and the state of the world
    when the loop takes it up. *)
Inductive input : Type :=
| FromErrors (err : option error)
| FromEvents (ev : Event) (now : time.Time) (w : World).

(** Where the loop stands when the inputs run out: still blocked in its
    [select], or returned. *)
Inductive status : Type :=
| Waiting
| Returned (err : option error).

(** The key of the throttle table. *)
Definition throttleKey (ev : Event) : string :=
  Name ev +:+ ":" +:+ Op_String (Op ev).

(** The test of the loop on the throttle table: the key is there and less
    than 800 whole milliseconds have passed since its time. *)
Definition tooSoon (throttle : gmap string time.Time) (key : string) (now : time.Time) : bool :=
  match throttle !! key with
  | Some t =>
      let elapsed := Z.quot (time.Sub now t) time.Millisecond in
      elapsed <? 800
  | None => false
  end.

Fixpoint handleEventsFrom (cfg : Flags) (inputs : list input)
    (throttle : gmap string time.Time) (st : State)
  : gmap string time.Time * State * status :=
  match inputs with
  | [] => (throttle, st, Waiting)
  | FromErrors None :: _ => (throttle, st, Returned None)
  | FromErrors (Some err) :: _ =>
      let st := debugln cfg ["watching error:"; Error err] st in
      (throttle, st, Returned (Some err))
  | FromEvents ev now w :: rest =>
      let st := debugln cfg ["watcher event:"; Name ev; Op_String (Op ev)] st in
      let key := throttleKey ev in
      if tooSoon throttle key now then
        let st := debugln cfg ["skipping event, less than 800ms"] st in
        handleEventsFrom cfg rest throttle st
      else
        let throttle := <[key := now]> throttle in
        match handleEvent cfg w ev st with
        | (st, Some err) => (throttle, st, Returned (Some err))
        | (st, None) => handleEventsFrom cfg rest throttle st
        end
  end.

(** [handleEvents]: the loop, started on an empty throttle table. *)
Definition handleEvents (cfg : Flags) (inputs : list input) (st : State)
  : gmap string time.Time * State * status :=
  handleEventsFrom cfg inputs ∅ st.

(** ** The reader of the operator's input

    [lines] are the lines the scanner delivers, each with the state of the
    world when its test run starts. *)
Fixpoint handleEnter (cfg : Flags) (wd : string) (lines : list (string * World)) (st : State)
  : State :=
  match lines with
  | [] => st
  | (_, w) :: rest =>
      match runTestsForDir cfg w wd st with
      | (st, Some err) =>
          let st := emit (Stderr (filepath.joinWith " " ["error running go test"; Error err])) st in
          handleEnter cfg wd rest st
      | (st, None) => handleEnter cfg wd rest st
      end
  end.

(** ** The walk at startup *)

#[local] Set Warnings "-register-all".

(** A file tree as [filepath.Walk] finds it: a file (anything that is not a
    directory), a directory with the error of reading its names, if any, and
    its entries by name in the order they are read, or an entry whose
    [Lstat] fails. *)
Inductive entry : Type :=
| File
| Dir (readErr : option error) (entries : list (string * entry))
| Gone (lstatErr : error).

Definition entryIsDir (e : entry) : bool :=
  match e with Dir _ _ => true | _ => false end.

(** [filepath.WalkFunc], on a state [S]: the path, [info.IsDir()] when there
    is an [info], and the error met at that path. *)
Definition WalkFunc (S : Type) : Type :=
  string -> option bool -> option error -> S -> S * option error.

(** The loop of [filepath.walk] over the names of a directory; [walkRec] is
    the call of [walk] on an entry. *)
Definition walkNames {S : Type} (walkRec : string -> entry -> S -> S * option error)
    (walkFn : WalkFunc S) (path : string)
  : list (string * entry) -> S -> S * option error :=
  fix range (names : list (string * entry)) (st : S) : S * option error :=
    match names with
    | [] => (st, None)
    | (name, fileInfo) :: names' =>
        let filename := filepath.Join path name in
        match fileInfo with
        | Gone err =>
            match walkFn filename None (Some err) st with
            | (st, Some err) =>
                if decide (err ≠ SkipDir) then (st, Some err) else range names' st
            | (st, None) => range names' st
            end
        | _ =>
            match walkRec filename fileInfo st with
            | (st, Some err) =>
                if negb (entryIsDir fileInfo) || bool_decide (err ≠ SkipDir)
                then (st, Some err)
                else range names' st
            | (st, None) => range names' st
            end
        end
    end.

(** [filepath.walk] *)
Fixpoint walk {S : Type} (walkFn : WalkFunc S) (path : string) (info : entry) (st : S)
  : S * option error :=
  match info with
  | File => walkFn path (Some false) None st
  | Gone err => walkFn path None (Some err) st
  | Dir readErr entries =>
      let '(st, err1) := walkFn path (Some true) readErr st in
      if bool_decide (readErr ≠ None) || bool_decide (err1 ≠ None) then (st, err1)
      else walkNames (walk walkFn) walkFn path entries st
  end.

(** [filepath.Walk]: [tree] is what [os.Lstat(root)] and the walk below it
    find. When the [Lstat] of the root fails, [walk] on [Gone] is the one
    call [fn(root, nil, err)] that [Walk] makes. *)
Definition Walk {S : Type} (root : string) (tree : entry) (fn : WalkFunc S) (st : S)
  : S * option error :=
  let '(st, err) := walk fn root tree st in
  match err with
  | Some SkipDir | Some SkipAll => (st, None)
  | _ => (st, err)
  end.

(** What startup finds: whether a watcher can be made, the tree under the
    working directory, and which paths the watcher takes. *)
Record Startup : Type := {
  NewWatcher : option error;
  Root : entry;
  AddAtStart : string -> option error
}.

(** The function [initWatches] hands to [filepath.Walk]. *)
Definition initWatchesFn (cfg : Flags) (add : string -> option error) : WalkFunc State :=
  fun path info err st =>
    match err with
    | Some err => (st, Some (errors.Wrapf err ("error occurred while walking: " +:+ path)))
    | None =>
        if negb (default false info) then (st, None)
        else if decide (filepath.Base path = "vendor") then (st, None)
        else
          let st := debugln cfg ["Adding watch:"; path] st in
          match watcher_Add add path st with
          | (st, Some err) => (st, Some (errors.Wrap err "failed to add watch to %s"))
          | (st, None) => (st, None)
          end
    end.

(** [initWatches]: the watcher it returns is the [watches] of the state; on
    an error no watcher is returned. *)
Definition initWatches (cfg : Flags) (sw : Startup) (workingDir : string) (st : State)
  : State * option error :=
  match NewWatcher sw with
  | Some err => (st, Some (errors.Wrap err "failed to create watcher"))
  | None =>
      match Walk workingDir (Root sw) (initWatchesFn cfg (AddAtStart sw)) st with
      | (st, Some err) => (st, Some err)
      | (st, None) => (st, None)
      end
  end.

(** The state of a process that has done nothing yet. *)
Definition start : State := {| watches := ∅; log := [] |}.

(** ** Notions the statements use *)

(** The event sets the bit of [Create] (the first case of the dispatcher's
    switch), or only that of [Write] (its second case). *)
Definition isCreate (ev : Event) : Prop := has (Op ev) Create = true.
Definition isWrite (ev : Event) : Prop :=
  has (Op ev) Create = false /\ has (Op ev) Write = true.

(** The extension [runTestsForFile] looks at. *)
Definition extension (file : string) : string := filepath.Ext (filepath.Base file).

(** The arguments of every test command. *)
Definition testArgs (cfg : Flags) : list string := "test" :: flagArgs cfg.

(** The state after one test command is started in [dir]. *)
Definition afterGoTest (cfg : Flags) (dir : string) (st : State) : State :=
  emit (GoTest dir (testArgs cfg))
    (debugln cfg ["running: go"; filepath.joinWith " " (testArgs cfg)] st).



(** The test commands of a log. *)
Definition isGoTest (a : action) : bool :=
  match a with GoTest _ _ => true | _ => false end.

Definition goTests (l : list action) : list action := List.filter isGoTest l.

(** A log without what was written to the diagnostic stream. *)
Definition isStderr (a : action) : bool :=
  match a with Stderr _ => true | _ => false end.

Definition quiet (l : list action) : list action :=
  List.filter (fun a => negb (isStderr a)) l.

(** The key of an input, when it is an event. *)
Definition inputKey (i : input) : option string :=
  match i with
  | FromEvents ev _ _ => Some (throttleKey ev)
  | FromErrors _ => None
  end.

(** The name of a directory entry: not empty, not "." or "..", and without a
    separator. *)
Definition fileName (name : string) : Prop :=
  name ≠ "" /\ name ≠ "." /\ name ≠ ".." /\
  forallb (fun c => negb (filepath.IsPathSeparator c)) (list_ascii_of_string name) = true.

(** The string has a colon, the separator of the throttle key. *)
Fixpoint hasColon (s : string) : bool :=
  match s with
  | EmptyString => false
  | String c s' => Ascii.eqb c ":"%char || hasColon s'
  end.

(** What one line of input adds to the log: the debug line of the test
    runner, the test command in [wd], and the report of its error if it
    returned one. *)
Definition lineLog (cfg : Flags) (wd : string) (w : World) : list action :=
  (if flagDebug cfg
   then [Stderr (filepath.joinWith " " ["running: go"; filepath.joinWith " " ("test" :: flagArgs cfg)])]
   else [])
  ++ [GoTest wd ("test" :: flagArgs cfg)]
  ++ match cmd_Run (Run w wd ("test" :: flagArgs cfg)) with
     | Some err => [Stderr (filepath.joinWith " " ["error running go test"; Error err])]
     | None => []
     end.

(** Two states that differ at most in what was written to the diagnostic
    stream. *)
Definition sameButStderr (st st' : State) : Prop :=
  watches st = watches st' /\ quiet (log st) = quiet (log st').

(** Two command lines that differ at most in the debug flag. *)
Definition sameButDebug (cfg cfg' : Flags) : Prop := flagArgs cfg = flagArgs cfg'.

(** Two results of a walk function: states in the relation [R] and the same
    error. *)
Definition relatedResults {S : Type} (R : S -> S -> Prop) (r r' : S * option error) : Prop :=
  R r.1 r'.1 /\ r.2 = r'.2.

(** The state [st'] is [st] with the watches of [paths] added, in order. *)
Definition addedWatches (paths : list string) (st st' : State) : Prop :=
  watches st' = list_to_set paths ∪ watches st /\
  quiet (log st') = quiet (log st) ++ map WatchAdd paths.

(** The paths of all directories of a tree, the root first, as the walk
    builds them; the directories below a directory named vendor are among
    them. *)
Fixpoint dirPaths (path : string) (e : entry) : list string :=
  match e with
  | Dir _ entries =>
      path :: flat_map (fun ne => dirPaths (filepath.Join path ne.1) ne.2) entries
  | _ => []
  end.

(** A tree the walk gets through: every directory can be read and every
    entry can be inspected. *)
Fixpoint healthy (e : entry) : bool :=
  match e with
  | File => true
  | Gone _ => false
  | Dir None entries => forallb (fun ne => healthy ne.2) entries
  | Dir (Some _) _ => false
  end.

Definition notVendor (path : string) : bool := bool_decide (filepath.Base path ≠ "vendor").

(** The directories whose own base name is not vendor. *)
Definition watchedAtStart (wd : string) (tree : entry) : list string :=
  List.filter notVendor (dirPaths wd tree).

(** ** Inputs of the examples *)

Definition plainFlags : Flags := {| flagDebug := false; flagArgs := ["-v"; "-run=Fast"] |}.
Definition debugFlags : Flags := {| flagDebug := true; flagArgs := ["-v"; "-run=Fast"] |}.

(** A world where every path is a plain file, the watcher takes every path
    and the test command ends as [o]. *)
Definition worldOf (o : outcome) : World :=
  {| Stat := fun _ => inr false; Add := fun _ => None; Run := fun _ _ => o |}.

(** A world where a new path is a directory. *)
Definition worldOfDirs : World :=
  {| Stat := fun _ => inr true; Add := fun _ => None; Run := fun _ _ => Exited 0 |}.

(** A world where the new path is gone before it is inspected. *)
Definition worldOfGone : World :=
  {| Stat := fun _ => inl (errorString "no such file or directory");
     Add := fun _ => None; Run := fun _ _ => Exited 0 |}.

Definition writeX : Event := {| Name := "/proj/a/x.go"; Op := Write |}.
Definition writeY : Event := {| Name := "/proj/b/y.go"; Op := Write |}.
Definition writeDoc : Event := {| Name := "/proj/a/notes.md"; Op := Write |}.
Definition createVendor : Event := {| Name := "/proj/vendor"; Op := Create |}.
Definition createZ : Event := {| Name := "/proj/a/z.go"; Op := Create |}.
Definition createWriteZ : Event := {| Name := "/proj/a/z.go"; Op := 3 |}.

(** The tree of the example: /proj with a/x.go, vendor/pkg/y.go and
    vendor/vendor. *)
Definition projTree : entry :=
  Dir None
    [("a", Dir None [("x.go", File)]);
     ("vendor", Dir None [("pkg", Dir None [("y.go", File)]); ("vendor", Dir None [])])].

Definition projStartup : Startup :=
  {| NewWatcher := None; Root := projTree; AddAtStart := fun _ => None |}.


(** ** [main]

    [main] up to its two [go] statements, and from the signal on. Between
    the two the event loop and the reader run side by side. *)

(** What [main] finds: the answer of [os.Getwd] (the path, empty when it
    fails, and the error), what startup finds under that path, and the
    answer of [watcher.Close]. *)
Record MainWorld : Type := {
  Getwd : string * option error;
  AtStart : Startup;
  Close : option error
}.

(** [main] until the loops are started: the exit status when it calls
    [os.Exit], or the directory it hands to [handleEnter]. *)
Definition mainStart (cfg : Flags) (mw : MainWorld) (st : State) : State * (Z + string) :=
  let '(wd, err) := Getwd mw in
  let st :=
    match err with
    | Some err => emit (Stderr (filepath.joinWith " " ["failed to get working dir"; Error err])) st
    | None => st
    end in
  match initWatches cfg (AtStart mw) wd st with
  | (st, Some err) => (emit (Stderr (Error err)) st, inl 1)
  | (st, None) => (st, inr wd)
  end.

(** [main] once a signal has come: the exit status of the process. *)
Definition mainStop (mw : MainWorld) (st : State) : State * Z :=
  let st := emit (Stderr "Exiting") st in
  match Close mw with
  | Some err => (emit (Stderr (Error err)) st, 1)
  | None => (st, 0)
  end.

(** ** The earlier version of the file

    The functions of the second source file that differ from those of
    [main.go]: [initWatches] asks for the working directory itself, and
    [runTestsForFile] runs the command itself. Its [handleEvent] and
    [handleEvents] have the text of those of [main.go] and call this
    [runTestsForFile]. *)
Module part_000.

Definition runTestsForFile (cfg : Flags) (w : World) (file : string) (st : State)
  : State * option error :=
  let filename := filepath.Base file in
  let dir := filepath.Dir file in
  let ext := filepath.Ext filename in
  if decide (ext ≠ ".go") then (st, None)
  else
    let args := ["test"] in
    let otherArgs := flagArgs cfg in
    let args := args ++ otherArgs in
    let st := debugln cfg ["running: go"; filepath.joinWith " " args] st in
    let st := emit (GoTest dir args) st in
    (st, cmd_Run (Run w dir args)).

Definition handleEvent (cfg : Flags) (w : World) (ev : Event) (st : State)
  : State * option error :=
  if has (Op ev) Create then
    if decide (filepath.Base (Name ev) = "vendor") then (st, None)
    else
      let st := emit (StatCall (Name ev)) st in
      match Stat w (Name ev) with
      | inl err => (st, Some (errors.Wrapf err "failed to stat newly created file"))
      | inr isDir =>
          if negb isDir then runTestsForFile cfg w (Name ev) st
          else
            let st := debugln cfg ["Adding watch:"; Name ev] st in
            match watcher_Add (Add w) (Name ev) st with
            | (st, Some err) =>
                (st, Some (errors.Wrapf err ("error removing watch on " +:+ Name ev)))
            | (st, None) => (st, None)
            end
      end
  else if has (Op ev) Write then
    match runTestsForFile cfg w (Name ev) st with
    | (st, Some err) => (st, Some err)
    | (st, None) => (st, None)
    end
  else (st, None).

Fixpoint handleEventsFrom (cfg : Flags) (inputs : list input)
    (throttle : gmap string time.Time) (st : State)
  : gmap string time.Time * State * status :=
  match inputs with
  | [] => (throttle, st, Waiting)
  | FromErrors None :: _ => (throttle, st, Returned None)
  | FromErrors (Some err) :: _ =>
      let st := debugln cfg ["watching error:"; Error err] st in
      (throttle, st, Returned (Some err))
  | FromEvents ev now w :: rest =>
      let st := debugln cfg ["watcher event:"; Name ev; Op_String (Op ev)] st in
      let key := throttleKey ev in
      if tooSoon throttle key now then
        let st := debugln cfg ["skipping event, less than 800ms"] st in
        handleEventsFrom cfg rest throttle st
      else
        let throttle := <[key := now]> throttle in
        match handleEvent cfg w ev st with
        | (st, Some err) => (throttle, st, Returned (Some err))
        | (st, None) => handleEventsFrom cfg rest throttle st
        end
  end.

Definition handleEvents (cfg : Flags) (inputs : list input) (st : State)
  : gmap string time.Time * State * status :=
  handleEventsFrom cfg inputs ∅ st.

(** [initWatches()]: [getwd] is the answer of [os.Getwd]. *)
Definition initWatches (cfg : Flags) (getwd : string * option error) (sw : Startup) (st : State)
  : State * option error :=
  match NewWatcher sw with
  | Some err => (st, Some (errors.Wrap err "failed to create watcher"))
  | None =>
      match getwd with
      | (_, Some err) => (st, Some (errors.Wrap err "failed to get working directory"))
      | (wd, None) =>
          match Walk wd (Root sw) (initWatchesFn cfg (AddAtStart sw)) st with
          | (st, Some err) => (st, Some err)
          | (st, None) => (st, None)
          end
      end
  end.

End part_000.

(** ** Notions of the further properties *)

(** Where an action of the dispatcher comes from: a line of [debugln] needs
    the debug flag; a stat or a watch is on the path of the event, which has
    the Create bit and is not called vendor; a test command runs in the
    directory of the path, which ends in .go, with the arguments of the
    command line after [test]. *)
Definition fromEvent (cfg : Flags) (ev : Event) (a : action) : Prop :=
  match a with
  | Stderr _ => flagDebug cfg = true
  | StatCall path | WatchAdd path =>
      path = Name ev /\ has (Op ev) Create = true /\ filepath.Base path ≠ "vendor"
  | GoTest dir args =>
      dir = filepath.Dir (Name ev) /\ args = "test" :: flagArgs cfg /\
      extension (Name ev) = ".go"
  end.

(** The same for the loop: the event is one of the inputs. *)
Definition fromInputs (cfg : Flags) (inputs : list input) (a : action) : Prop :=
  match a with
  | Stderr _ => flagDebug cfg = true
  | _ => exists ev now w, In (FromEvents ev now w) inputs /\ fromEvent cfg ev a
  end.

(** The state [st'] has the log of [st] followed by actions that all
    satisfy [P]. *)
Definition extends (P : action -> Prop) (st st' : State) : Prop :=
  exists l, log st' = log st ++ l /\ Forall P l.

(** Watches added one after the other as the walk function adds them, up
    to the first that the watcher refuses. *)
Fixpoint addWatches (cfg : Flags) (add : string -> option error) (paths : list string)
    (st : State) : State * option error :=
  match paths with
  | [] => (st, None)
  | path :: paths' =>
      match watcher_Add add path (debugln cfg ["Adding watch:"; path] st) with
      | (st, Some err) => (st, Some (errors.Wrap err "failed to add watch to %s"))
      | (st, None) => addWatches cfg add paths' st
      end
  end.

(** The lines written to the diagnostic stream. *)
Definition stderrLines (l : list action) : list action := List.filter isStderr l.

(** The events among the inputs. *)
Definition isEvent (i : input) : bool :=
  match i with FromEvents _ _ _ => true | FromErrors _ => false end.

(** The first directory, in the order of the walk, that the watcher refuses:
    [before] are the watched directories ahead of it. *)
Definition firstRefused (add : string -> option error) (paths before : list string)
    (path : string) (err : error) : Prop :=
  exists after, paths = before ++ path :: after /\
    Forall (fun p => add p = None) before /\ add path = Some err.

(** C3 as it is worded, in its second half: in every sequence, an event that
    comes 800 ms or more after an accepted event with the same key is
    accepted in its turn, so the throttle table then holds its time. *)
Definition lateEventAlwaysAccepted : Prop :=
  forall (cfg : Flags) (ev : Event) (t1 t2 : time.Time) (w1 w2 : World) (st : State),
    800 * time.Millisecond <= t2 - t1 ->
    (handleEvents cfg [FromEvents ev t1 w1; FromEvents ev t2 w2] st).1.1 !! throttleKey ev
    = Some t2.

(** * Properties *)

Example Base_examples :
  map filepath.Base ["/proj/vendor"; "/proj/a/x.go"; "vendor/"; ""; "///"; "x"]
  = ["vendor"; "x.go"; "vendor"; "."; "/"; "x"].
Proof. reflexivity. Qed.

Example Ext_examples :
  map filepath.Ext ["x.go"; "a.b/x"; "x.tar.gz"; ".go"; ""; "x."; "README"]
  = [".go"; ""; ".gz"; ".go"; ""; "."; ""].
Proof. reflexivity. Qed.

Example Clean_examples :
  map filepath.Clean ["/proj/a/"; "a//b/./c/.."; "../../a"; "/.."; ""; "a/.."; "/"; "a/../../b"]
  = ["/proj/a"; "a/b"; "../../a"; "/"; "."; "."; "/"; "../b"].
Proof. reflexivity. Qed.

Example Dir_examples :
  map filepath.Dir ["/proj/a/x.go"; "x.go"; "/x.go"; "/proj/a/"; ""; "a/b"]
  = ["/proj/a"; "."; "/"; "/proj/a"; "."; "a"].
Proof. reflexivity. Qed.

Example Join_examples :
  filepath.Join "/proj" "vendor" = "/proj/vendor"
  /\ filepath.Join "/" "a" = "/a"
  /\ filepath.Join "" "a" = "a".
Proof. repeat split; reflexivity. Qed.

(** ** The extension of a path and of its base name *)

Lemma extFrom_untilSeparator (r seen : list ascii) :
  filepath.extFrom (filepath.untilSeparator r) seen = filepath.extFrom r seen.
Proof.
  revert seen. induction r as [|c r IH]; intros seen; [reflexivity|].
  cbn [filepath.untilSeparator filepath.extFrom].
  destruct (filepath.IsPathSeparator c) eqn:Hc; [reflexivity|].
  cbn [filepath.extFrom]. rewrite Hc. destruct (decide _); [reflexivity|apply IH].
Qed.

(** On a path that does not end in a separator, the extension of the base
    name, which the test runner looks at, is the extension of the path. *)
Lemma extension_Ext (path : string) (c : ascii) :
  last (list_ascii_of_string path) = Some c ->
  filepath.IsPathSeparator c = false ->
  extension path = filepath.Ext path.
Proof.
  intros Hlast Hc. unfold extension, filepath.Ext, filepath.Base.
  apply last_Some in Hlast as [l Hl].
  destruct (decide (path = "")) as [->|_]; [by destruct l|].
  rewrite Hl, rev_app_distr. cbn [rev app filepath.dropSeparators]. rewrite Hc.
  cbn [filepath.untilSeparator]. rewrite Hc.
  destruct (decide _) as [Hnil|_].
  { apply (f_equal (@length ascii)) in Hnil. cbn [rev] in Hnil.
    rewrite length_app in Hnil. cbn in Hnil. lia. }
  rewrite list_ascii_of_string_of_list_ascii, rev_involutive.
  cbn [filepath.extFrom]. rewrite Hc.
  destruct (decide _); [reflexivity|]. by rewrite extFrom_untilSeparator.
Qed.

(** ** The base name of a joined path *)

Lemma append_nil (t : string) : "" +:+ t = t.
Proof. reflexivity. Qed.

Lemma append_cons (c : ascii) (s t : string) : String c s +:+ t = String c (s +:+ t).
Proof. reflexivity. Qed.

Lemma append_assoc (s t u : string) : (s +:+ t) +:+ u = s +:+ t +:+ u.
Proof. induction s as [|c s IH]; [reflexivity|]. by rewrite !append_cons, IH. Qed.

Lemma list_ascii_of_append (s t : string) :
  list_ascii_of_string (s +:+ t) = list_ascii_of_string s ++ list_ascii_of_string t.
Proof. induction s as [|c s IH]; [reflexivity|]. cbn. by rewrite <- IH. Qed.

Lemma split_no_separator (cur l : list ascii) :
  forallb (fun c => negb (filepath.IsPathSeparator c)) l = true ->
  filepath.split cur l = [string_of_list_ascii (rev cur ++ l)].
Proof.
  revert cur. induction l as [|c l IH]; intros cur Hl.
  - cbn. by rewrite app_nil_r.
  - cbn [forallb] in Hl. apply andb_prop in Hl as [Hc Hl].
    cbn [filepath.split]. apply negb_true_iff in Hc. rewrite Hc, IH by done.
    cbn [rev]. by rewrite <- app_assoc.
Qed.

Lemma split_app (cur l1 l2 : list ascii) :
  filepath.split cur (l1 ++ "/"%char :: l2) = filepath.split cur l1 ++ filepath.split [] l2.
Proof.
  revert cur. induction l1 as [|c l1 IH]; intros cur; [reflexivity|].
  cbn [app filepath.split]. destruct (filepath.IsPathSeparator c).
  - by rewrite IH.
  - apply IH.
Qed.

Lemma joinWith_snoc (sep : string) (l : list string) (x : string) :
  filepath.joinWith sep (l ++ [x])
  = match l with [] => x | _ => filepath.joinWith sep l +:+ sep +:+ x end.
Proof.
  induction l as [|e l IH]; [reflexivity|].
  cbn [app]. destruct l as [|e' l]; [reflexivity|].
  change (filepath.joinWith sep (e :: (e' :: l) ++ [x]))
    with (e +:+ sep +:+ filepath.joinWith sep ((e' :: l) ++ [x])).
  rewrite IH.
  change (filepath.joinWith sep (e :: e' :: l))
    with (e +:+ sep +:+ filepath.joinWith sep (e' :: l)).
  by rewrite !append_assoc.
Qed.

Lemma untilSeparator_app (a b : list ascii) :
  forallb (fun c => negb (filepath.IsPathSeparator c)) a = true ->
  filepath.untilSeparator (a ++ b) = a ++ filepath.untilSeparator b.
Proof.
  induction a as [|c a IH]; intros Ha; [reflexivity|].
  cbn [forallb] in Ha. apply andb_prop in Ha as [Hc Ha]. apply negb_true_iff in Hc.
  cbn [app filepath.untilSeparator]. by rewrite Hc, IH.
Qed.

(** The base name of a path that ends in a separator followed by a name, or
    is a name. *)
Lemma Base_name (prefix name : string) :
  fileName name ->
  prefix = "" \/ (exists p, prefix = p +:+ "/") ->
  filepath.Base (prefix +:+ name) = name.
Proof.
  intros (Hne & _ & _ & Hsep) Hprefix. unfold filepath.Base.
  destruct (decide (prefix +:+ name = "")) as [Hempty|_].
  { destruct prefix; [by destruct name|discriminate]. }
  rewrite list_ascii_of_append, rev_app_distr.
  assert (Hrev : forallb (fun c => negb (filepath.IsPathSeparator c))
                   (rev (list_ascii_of_string name)) = true).
  { rewrite forallb_forall in *. intros c Hc. apply Hsep. by apply in_rev. }
  destruct (rev (list_ascii_of_string name)) as [|c r] eqn:Hr.
  { apply (f_equal (@rev ascii)) in Hr. rewrite rev_involutive in Hr.
    destruct name; [done|discriminate]. }
  assert (Hc : filepath.IsPathSeparator c = false).
  { cbn [forallb] in Hrev. apply andb_prop in Hrev as [Hc _]. by apply negb_true_iff. }
  cbn [app filepath.dropSeparators]. rewrite Hc.
  change (c :: r ++ ?l) with ((c :: r) ++ l). rewrite untilSeparator_app by done.
  assert (Htail : filepath.untilSeparator (rev (list_ascii_of_string prefix)) = []).
  { destruct Hprefix as [->|[p ->]]; [reflexivity|].
    rewrite list_ascii_of_append, rev_app_distr. reflexivity. }
  rewrite Htail, app_nil_r, <- Hr, rev_involutive.
  destruct (decide _) as [Hnil|_].
  { destruct name; [done|discriminate]. }
  apply string_of_list_ascii_of_string.
Qed.

Lemma cleanStep_name (rooted : bool) (dots out : list string) (name : string) :
  fileName name -> filepath.cleanStep rooted (dots, out) name = (dots, name :: out).
Proof.
  intros (H1 & H2 & H3 & _). unfold filepath.cleanStep.
  by repeat (destruct (decide _); [contradiction|]).
Qed.

(** The walk names the entries of a directory by [Join]: the base name of
    such a path is the name of the entry. *)
Lemma Base_Join (dir name : string) :
  dir ≠ "" -> fileName name -> filepath.Base (filepath.Join dir name) = name.
Proof.
  intros Hdir Hname. unfold filepath.Join.
  destruct (decide (dir = "")); [contradiction|].
  destruct dir as [|c dir]; [contradiction|].
  unfold filepath.Clean. rewrite append_cons. cbv iota.
  rewrite <- (append_cons c dir), list_ascii_of_append.
  change (list_ascii_of_string ("/" +:+ name)) with ("/"%char :: list_ascii_of_string name).
  rewrite split_app, (split_no_separator [] (list_ascii_of_string name)) by apply Hname.
  rewrite fold_left_app. cbn [rev app fold_left].
  destruct (fold_left _ _ _) as [dots out].
  rewrite string_of_list_ascii_of_string, cleanStep_name by done.
  cbn [rev]. rewrite app_assoc, joinWith_snoc.
  destruct (dots ++ rev out) as [|e l]; destruct (filepath.IsPathSeparator c).
  - apply (Base_name "/" name); [done|]. right. by exists "".
  - destruct (decide _) as [Hempty|_]; [by destruct Hname as [? _]|].
    by apply (Base_name "" name); [|left].
  - rewrite <- !append_assoc. apply Base_name; [done|]. right. by eexists.
  - destruct (decide _) as [Hempty|_].
    + destruct (filepath.joinWith "/" (e :: l)); discriminate.
    + rewrite <- !append_assoc. apply Base_name; [done|]. right. by eexists.
Qed.

(** ** The test runner and the dispatcher, case by case *)

Lemma watches_emit (a : action) (st : State) : watches (emit a st) = watches st.
Proof. reflexivity. Qed.

Lemma log_emit (a : action) (st : State) : log (emit a st) = log st ++ [a].
Proof. reflexivity. Qed.

Lemma watches_debugln (cfg : Flags) (args : list string) (st : State) :
  watches (debugln cfg args st) = watches st.
Proof. unfold debugln. by destruct (flagDebug cfg). Qed.

Lemma goTests_app (l1 l2 : list action) : goTests (l1 ++ l2) = goTests l1 ++ goTests l2.
Proof. apply List.filter_app. Qed.

Lemma quiet_app (l1 l2 : list action) : quiet (l1 ++ l2) = quiet l1 ++ quiet l2.
Proof. apply List.filter_app. Qed.

Lemma goTests_debugln (cfg : Flags) (args : list string) (st : State) :
  goTests (log (debugln cfg args st)) = goTests (log st).
Proof.
  unfold debugln. destruct (flagDebug cfg); [|reflexivity].
  rewrite log_emit, goTests_app. apply app_nil_r.
Qed.

Lemma quiet_debugln (cfg : Flags) (args : list string) (st : State) :
  quiet (log (debugln cfg args st)) = quiet (log st).
Proof.
  unfold debugln. destruct (flagDebug cfg); [|reflexivity].
  rewrite log_emit, quiet_app. apply app_nil_r.
Qed.

Lemma cmd_Run_nil (o : outcome) : cmd_Run o = None <-> o = Exited 0.
Proof.
  destruct o as [code|e]; simpl; [|split; discriminate].
  destruct (decide (code = 0)) as [->|Hne]; split; try done.
  intros [=]. contradiction.
Qed.

Lemma cmd_Run_exit (code : Z) : code ≠ 0 -> cmd_Run (Exited code) = Some (ExitError code).
Proof. intros Hne. simpl. destruct (decide (code = 0)); [contradiction|reflexivity]. Qed.

Lemma runGoTest_eq (cfg : Flags) (w : World) (dir : string) (st : State) :
  runGoTest cfg w dir st = (afterGoTest cfg dir st, cmd_Run (Run w dir (testArgs cfg))).
Proof. reflexivity. Qed.

Lemma runTestsForFile_go (cfg : Flags) (w : World) (file : string) (st : State) :
  extension file = ".go" ->
  runTestsForFile cfg w file st
  = (afterGoTest cfg (filepath.Dir file) st,
     cmd_Run (Run w (filepath.Dir file) (testArgs cfg))).
Proof.
  unfold extension, runTestsForFile. intros ->.
  destruct (decide (".go" ≠ ".go")); [contradiction|apply runGoTest_eq].
Qed.

Lemma runTestsForFile_other (cfg : Flags) (w : World) (file : string) (st : State) :
  extension file ≠ ".go" -> runTestsForFile cfg w file st = (st, None).
Proof.
  unfold extension, runTestsForFile. intros Hne.
  destruct (decide _); [reflexivity|contradiction].
Qed.

Lemma handleEvent_write (cfg : Flags) (w : World) (ev : Event) (st : State) :
  isWrite ev -> handleEvent cfg w ev st = runTestsForFile cfg w (Name ev) st.
Proof.
  intros [Hc Hw]. unfold handleEvent. rewrite Hc, Hw.
  destruct (runTestsForFile cfg w (Name ev) st) as [st' [err|]]; reflexivity.
Qed.

Lemma handleEvent_create_file (cfg : Flags) (w : World) (ev : Event) (st : State) :
  isCreate ev -> filepath.Base (Name ev) ≠ "vendor" -> Stat w (Name ev) = inr false ->
  handleEvent cfg w ev st
  = runTestsForFile cfg w (Name ev) (emit (StatCall (Name ev)) st).
Proof.
  intros Hc Hv Hs. unfold handleEvent. rewrite Hc, Hs.
  destruct (decide _); [contradiction|reflexivity].
Qed.


(** ** C5, C6, C7, C9: the dispatcher *)

(** C5: an event with the Create bit whose path has the base name vendor
    leaves the state as it was (no stat, no watch, no test run, nothing
    logged) and gives no error. *)
Theorem create_vendor_is_ignored (cfg : Flags) (w : World) (ev : Event) (st : State) :
  isCreate ev ->
  filepath.Base (Name ev) = "vendor" ->
  handleEvent cfg w ev st = (st, None).
Proof.
  intros Hc Hv. unfold handleEvent. rewrite Hc.
  destruct (decide _); [reflexivity|contradiction].
Qed.

Lemma create_vendor_is_ignored_witness :
  isCreate createVendor /\ filepath.Base (Name createVendor) = "vendor" /\
  handleEvent debugFlags worldOfGone createVendor start = (start, None).
Proof.
  split; [reflexivity|]. split; [reflexivity|].
  apply (create_vendor_is_ignored debugFlags worldOfGone createVendor start); reflexivity.
Defined.

(** C6: when the stat of a newly created path (not called vendor) fails,
    the dispatcher returns that error wrapped as the stat failure, and the
    event loop returns it at once: whatever inputs follow are never read. *)
Theorem stat_failure_ends_the_loop (cfg : Flags) (w : World) (ev : Event) (err : error)
    (now : time.Time) (rest : list input) (throttle : gmap string time.Time) (st : State) :
  isCreate ev ->
  filepath.Base (Name ev) ≠ "vendor" ->
  Stat w (Name ev) = inl err ->
  tooSoon throttle (throttleKey ev) now = false ->
  let statError := errors.Wrapf err "failed to stat newly created file" in
  let st0 := debugln cfg ["watcher event:"; Name ev; Op_String (Op ev)] st in
  handleEvent cfg w ev st0 = (emit (StatCall (Name ev)) st0, Some statError) /\
  handleEventsFrom cfg (FromEvents ev now w :: rest) throttle st
  = (<[throttleKey ev := now]> throttle, emit (StatCall (Name ev)) st0,
     Returned (Some statError)).
Proof.
  intros Hc Hv Hs Hsoon statError st0.
  assert (Hev : handleEvent cfg w ev st0 = (emit (StatCall (Name ev)) st0, Some statError)).
  { unfold handleEvent. rewrite Hc, Hs. destruct (decide _); [contradiction|reflexivity]. }
  split; [exact Hev|].
  simpl. rewrite Hsoon. fold st0. rewrite Hev. reflexivity.
Qed.

Lemma stat_failure_ends_the_loop_witness :
  (handleEvents plainFlags [FromEvents createZ 5 worldOfGone; FromEvents writeX 9 (worldOf (Exited 0))] start).2
  = Returned (Some (withMessage (errorString "no such file or directory")
                      "failed to stat newly created file")).
Proof.
  unfold handleEvents.
  pose proof (stat_failure_ends_the_loop plainFlags worldOfGone createZ
                (errorString "no such file or directory") 5
                [FromEvents writeX 9 (worldOf (Exited 0))] ∅ start) as H.
  destruct H as [_ H]; [reflexivity|by vm_compute|reflexivity|reflexivity|].
  rewrite H. reflexivity.
Defined.

(** C7: an event with only the Write bit on a path whose extension is .go
    starts exactly one test command, in the directory of the path, with the
    arguments [test] followed by the arguments of the command line as they
    are; on any other extension the state is left as it was and no error is
    returned. *)
Theorem write_event_runs_go_test_once (cfg : Flags) (w : World) (ev : Event) (st : State) :
  isWrite ev ->
  let dir := filepath.Dir (Name ev) in
  let args := "test" :: flagArgs cfg in
  let r := handleEvent cfg w ev st in
  (extension (Name ev) = ".go" ->
     watches r.1 = watches st /\
     log r.1 = log (debugln cfg ["running: go"; filepath.joinWith " " args] st)
               ++ [GoTest dir args] /\
     goTests (log r.1) = goTests (log st) ++ [GoTest dir args] /\
     r.2 = cmd_Run (Run w dir args)) /\
  (extension (Name ev) ≠ ".go" -> r = (st, None)).
Proof.
  intros Hw dir args r. subst r. rewrite handleEvent_write by done. split.
  - intros Hext. rewrite runTestsForFile_go by done.
    unfold afterGoTest. cbn [fst snd]. fold args dir.
    rewrite watches_emit, watches_debugln, log_emit, goTests_app, goTests_debugln.
    done.
  - intros Hext. by apply runTestsForFile_other.
Qed.

Lemma write_event_runs_go_test_once_witness :
  isWrite writeX /\
  log (handleEvent plainFlags (worldOf (Exited 0)) writeX start).1
  = [GoTest "/proj/a" ["test"; "-v"; "-run=Fast"]] /\
  handleEvent plainFlags (worldOf (Exited 0)) writeDoc start = (start, None).
Proof.
  split; [split; reflexivity|].
  pose proof (write_event_runs_go_test_once plainFlags (worldOf (Exited 0)) writeX start) as HX.
  pose proof (write_event_runs_go_test_once plainFlags (worldOf (Exited 0)) writeDoc start) as HD.
  simpl in HX, HD. split.
  - destruct HX as [HX _]; [split; reflexivity|].
    destruct HX as (_ & HX & _); [reflexivity|]. exact HX.
  - destruct HD as [_ HD]; [split; reflexivity|].
    apply HD. by vm_compute.
Defined.

(** Whatever the event, the dispatcher starts at most one test command. *)
Lemma handleEvent_goTests (cfg : Flags) (w : World) (ev : Event) (st : State) :
  exists l, goTests (log (handleEvent cfg w ev st).1) = goTests (log st) ++ l /\
    (length l <= 1)%nat.
Proof.
  assert (Hnone : forall s s', goTests (log s') = goTests (log s) ->
            exists l, goTests (log s') = goTests (log s) ++ l /\ (length l <= 1)%nat).
  { intros s s' ->. exists []. split; [by rewrite app_nil_r|cbn; lia]. }
  assert (Hfile : forall s, exists l,
            goTests (log (runTestsForFile cfg w (Name ev) s).1) = goTests (log s) ++ l /\
            (length l <= 1)%nat).
  { intros s. unfold runTestsForFile. destruct (decide _); [by apply Hnone|].
    rewrite runGoTest_eq. unfold afterGoTest. cbn [fst].
    rewrite log_emit, goTests_app, goTests_debugln. eexists. split; [reflexivity|cbn; lia]. }
  unfold handleEvent. destruct (has (Op ev) Create).
  - destruct (decide _); [by apply Hnone|].
    destruct (Stat w (Name ev)) as [err|[|]]; cbn [negb fst].
    + apply Hnone. by rewrite log_emit, goTests_app, app_nil_r.
    + apply Hnone. unfold watcher_Add.
      destruct (Add w (Name ev)); cbn [fst log];
        by rewrite log_emit, goTests_app, goTests_debugln, log_emit, goTests_app, !app_nil_r.
    + destruct (Hfile (emit (StatCall (Name ev)) st)) as (l & Hl & Hlen).
      exists l. by rewrite Hl, log_emit, goTests_app, app_nil_r.
  - destruct (has (Op ev) Write); [|by apply Hnone].
    destruct (Hfile st) as (l & Hl & Hlen). exists l.
    by destruct (runTestsForFile cfg w (Name ev) st) as [s [e|]].
Qed.

(** C9: an event whose mask has both the Create and the Write bit is handled
    as the event with the mask Create alone on the same path (the vendor
    check, the stat, then the watch or the test run): only the first case
    of the switch runs, so no second test command is started for it. *)
Theorem create_case_wins (cfg : Flags) (w : World) (ev : Event) (st : State) :
  has (Op ev) Create = true ->
  has (Op ev) Write = true ->
  handleEvent cfg w ev st
  = handleEvent cfg w {| Name := Name ev; Op := Create |} st /\
  (length (goTests (log (handleEvent cfg w ev st).1)) <= length (goTests (log st)) + 1)%nat.
Proof.
  intros Hc _. split.
  - unfold handleEvent. simpl. rewrite Hc.
    replace (has Create Create) with true by reflexivity. reflexivity.
  - destruct (handleEvent_goTests cfg w ev st) as (l & -> & Hlen).
    rewrite length_app. lia.
Qed.

Lemma create_case_wins_witness :
  has (Op createWriteZ) Create = true /\ has (Op createWriteZ) Write = true /\
  handleEvent plainFlags worldOfDirs createWriteZ start
  = handleEvent plainFlags worldOfDirs createZ start /\
  goTests (log (handleEvent plainFlags worldOfDirs createWriteZ start).1) = [].
Proof.
  split; [reflexivity|]. split; [reflexivity|].
  pose proof (create_case_wins plainFlags worldOfDirs createWriteZ start eq_refl eq_refl) as [H _].
  split; [exact H|]. rewrite H. reflexivity.
Defined.

(** ** The throttle test and one turn of the loop *)

Lemma quot_Millisecond_lt (d : Z) :
  (Z.quot d time.Millisecond <? 800) = (d <? 800 * time.Millisecond).
Proof.
  unfold time.Millisecond.
  destruct (Z.le_gt_cases 0 d) as [Hd|Hd].
  - rewrite Z.quot_div_nonneg by lia.
    destruct (Z.ltb_spec d (800 * 1000000)) as [H|H].
    + apply Z.ltb_lt. apply Z.div_lt_upper_bound; lia.
    + apply Z.ltb_ge. apply Z.div_le_lower_bound; lia.
  - assert (Hq : Z.quot d 1000000 <= 0).
    { replace d with (- - d) by lia. rewrite Z.quot_opp_l by lia.
      assert (0 <= Z.quot (- d) 1000000) by (apply Z.quot_pos; lia). lia. }
    transitivity true; [apply Z.ltb_lt; lia | symmetry; apply Z.ltb_lt; lia].
Qed.

Lemma Sub_lt (t u : time.Time) :
  (time.Sub t u <? 800 * time.Millisecond) = (t - u <? 800 * time.Millisecond).
Proof.
  unfold time.Sub, time.maxDuration, time.minDuration, time.Millisecond.
  destruct (Z.gtb_spec (t - u) (2 ^ 63 - 1)) as [H|H].
  - transitivity false; [apply Z.ltb_ge; lia | symmetry; apply Z.ltb_ge; lia].
  - destruct (Z.ltb_spec (t - u) (- 2 ^ 63)) as [H'|H']; [|reflexivity].
    transitivity true; [apply Z.ltb_lt; lia | symmetry; apply Z.ltb_lt; lia].
Qed.

(** The throttle test in plain terms: the key has a time in the table and
    the event comes less than 800 ms after it. *)
Lemma tooSoon_true (throttle : gmap string time.Time) (key : string) (now : time.Time) :
  tooSoon throttle key now = true
  <-> exists t, throttle !! key = Some t /\ now - t < 800 * time.Millisecond.
Proof.
  unfold tooSoon. destruct (throttle !! key) as [t|].
  - rewrite quot_Millisecond_lt, Sub_lt, Z.ltb_lt. split.
    + intros H. by exists t.
    + by intros (t' & [= <-] & H).
  - split; [discriminate|]. by intros (t & [=] & _).
Qed.

Lemma tooSoon_false (throttle : gmap string time.Time) (key : string) (now : time.Time) :
  tooSoon throttle key now = false
  <-> forall t, throttle !! key = Some t -> 800 * time.Millisecond <= now - t.
Proof.
  rewrite <- not_true_iff_false, tooSoon_true. split.
  - intros H t Ht. destruct (Z.le_gt_cases (800 * time.Millisecond) (now - t)); [done|].
    exfalso. apply H. by exists t.
  - intros H (t & Ht & Hlt). specialize (H t Ht). lia.
Qed.

Lemma handleEventsFrom_skip (cfg : Flags) (ev : Event) (now : time.Time) (w : World)
    (rest : list input) (throttle : gmap string time.Time) (st : State) :
  tooSoon throttle (throttleKey ev) now = true ->
  handleEventsFrom cfg (FromEvents ev now w :: rest) throttle st
  = handleEventsFrom cfg rest throttle
      (debugln cfg ["skipping event, less than 800ms"]
         (debugln cfg ["watcher event:"; Name ev; Op_String (Op ev)] st)).
Proof. intros H. simpl. by rewrite H. Qed.

Lemma handleEventsFrom_accept (cfg : Flags) (ev : Event) (now : time.Time) (w : World)
    (rest : list input) (throttle : gmap string time.Time) (st : State) :
  tooSoon throttle (throttleKey ev) now = false ->
  handleEventsFrom cfg (FromEvents ev now w :: rest) throttle st
  = match handleEvent cfg w ev (debugln cfg ["watcher event:"; Name ev; Op_String (Op ev)] st) with
    | (st', Some err) => (<[throttleKey ev := now]> throttle, st', Returned (Some err))
    | (st', None) => handleEventsFrom cfg rest (<[throttleKey ev := now]> throttle) st'
    end.
Proof. intros H. simpl. by rewrite H. Qed.

(** The loop on a sequence of inputs cut in two: the second part is read
    only if the loop is still waiting after the first. *)
Lemma handleEventsFrom_app (cfg : Flags) (ins1 ins2 : list input)
    (throttle : gmap string time.Time) (st : State) :
  handleEventsFrom cfg (ins1 ++ ins2) throttle st
  = match handleEventsFrom cfg ins1 throttle st with
    | (throttle', st', Waiting) => handleEventsFrom cfg ins2 throttle' st'
    | returned => returned
    end.
Proof.
  revert throttle st. induction ins1 as [|i ins1 IH]; intros throttle st; [reflexivity|].
  destruct i as [[err|]|ev now w]; [reflexivity|reflexivity|].
  rewrite <- app_comm_cons.
  destruct (tooSoon throttle (throttleKey ev) now) eqn:Hsoon.
  - rewrite !handleEventsFrom_skip by done. apply IH.
  - rewrite !handleEventsFrom_accept by done.
    destruct (handleEvent _ _ _ _) as [st' [err|]]; [reflexivity|apply IH].
Qed.

(** Events under other keys leave the time of a key alone. *)
Lemma handleEventsFrom_other_keys (cfg : Flags) (key : string) (ins : list input)
    (throttle throttle' : gmap string time.Time) (st st' : State) (s : status) :
  Forall (fun i => inputKey i ≠ Some key) ins ->
  handleEventsFrom cfg ins throttle st = (throttle', st', s) ->
  throttle' !! key = throttle !! key.
Proof.
  intros Hins. revert throttle st.
  induction Hins as [|i ins Hi _ IH]; intros throttle st Hrun.
  - by injection Hrun as <- _ _.
  - destruct i as [[err|]|ev now w].
    + by injection Hrun as <- _ _.
    + by injection Hrun as <- _ _.
    + assert (Hne : throttleKey ev ≠ key) by (intros <-; by apply Hi).
      destruct (tooSoon throttle (throttleKey ev) now) eqn:Hsoon.
      * rewrite handleEventsFrom_skip in Hrun by done. by apply IH in Hrun.
      * rewrite handleEventsFrom_accept in Hrun by done.
        destruct (handleEvent _ _ _ _) as [st1 [err|]].
        -- injection Hrun as <- _ _. by apply lookup_insert_ne.
        -- apply IH in Hrun. rewrite Hrun. by apply lookup_insert_ne.
Qed.

(** ** The key of the throttle table *)

Lemma hasColon_append (n s : string) : hasColon (n +:+ String ":" s) = true.
Proof.
  induction n as [|c n IH]; [reflexivity|].
  rewrite append_cons. cbn [hasColon]. rewrite IH. apply orb_true_r.
Qed.

Lemma Op_String_no_colon (op : uint32) : hasColon (Op_String op) = false.
Proof.
  unfold Op_String.
  destruct (has op Create), (has op Remove), (has op Write), (has op Rename), (has op Chmod);
    reflexivity.
Qed.

Lemma append_colon_inj (n1 n2 s1 s2 : string) :
  hasColon s1 = false -> hasColon s2 = false ->
  n1 +:+ ":" +:+ s1 = n2 +:+ ":" +:+ s2 -> n1 = n2 /\ s1 = s2.
Proof.
  intros H1 H2. revert H1 H2.
  change (hasColon s1 = false -> hasColon s2 = false ->
          n1 +:+ String ":" s1 = n2 +:+ String ":" s2 -> n1 = n2 /\ s1 = s2).
  revert n2. induction n1 as [|c1 n1 IH]; intros [|c2 n2] H1 H2 Heq;
    rewrite ?append_cons, ?append_nil in Heq.
  - by injection Heq as ->.
  - injection Heq as _ Heq. rewrite Heq, hasColon_append in H1. discriminate.
  - injection Heq as _ Heq. rewrite <- Heq, hasColon_append in H2. discriminate.
  - injection Heq as -> Heq. destruct (IH n2 H1 H2 Heq) as [-> ->]. done.
Qed.

(** Two events have the same key exactly when they have the same path and
    the same operations, as [Op.String] names them: a colon in a path cannot
    make the keys of two different pairs meet. *)
Lemma throttleKey_inj (ev1 ev2 : Event) :
  throttleKey ev1 = throttleKey ev2
  <-> Name ev1 = Name ev2 /\ Op_String (Op ev1) = Op_String (Op ev2).
Proof.
  unfold throttleKey. split.
  - apply append_colon_inj; apply Op_String_no_colon.
  - by intros [-> ->].
Qed.

(** A write and a creation of the same path have different keys. *)
Lemma throttleKey_write_create (name : string) :
  throttleKey {| Name := name; Op := Write |} ≠ throttleKey {| Name := name; Op := Create |}.
Proof. rewrite throttleKey_inj. cbn. by intros [_ [=]]. Qed.

(** ** C3, C4: the throttle table *)

(** C3, as the code has it: take an event that the loop accepts at [t1],
    then inputs under other keys, and let the loop still be waiting for
    input after them (no call of the dispatcher returned an error and the
    watcher sent none); then comes an event with the same key at [t2]. If
    [t2] is less than 800 ms after [t1] the second event only adds debug
    lines: the loop goes on with the table and the state it had, and the
    dispatcher is not called. If [t2] is 800 ms or more after [t1] the
    second event is handed to the dispatcher, as the first was, and the
    table takes [t2]. *)
Theorem debounce_800ms (cfg : Flags) (ev1 ev2 : Event) (t1 t2 : time.Time) (w1 w2 : World)
    (mid rest : list input) (throttle throttle1 : gmap string time.Time) (st st1 : State) :
  throttleKey ev2 = throttleKey ev1 ->
  Forall (fun i => inputKey i ≠ Some (throttleKey ev1)) mid ->
  tooSoon throttle (throttleKey ev1) t1 = false ->
  handleEventsFrom cfg (FromEvents ev1 t1 w1 :: mid) throttle st = (throttle1, st1, Waiting) ->
  let seen := debugln cfg ["watcher event:"; Name ev2; Op_String (Op ev2)] st1 in
  let all := FromEvents ev1 t1 w1 :: mid ++ FromEvents ev2 t2 w2 :: rest in
  (t2 - t1 < 800 * time.Millisecond ->
     handleEventsFrom cfg all throttle st
     = handleEventsFrom cfg rest throttle1
         (debugln cfg ["skipping event, less than 800ms"] seen)) /\
  (800 * time.Millisecond <= t2 - t1 ->
     handleEventsFrom cfg all throttle st
     = match handleEvent cfg w2 ev2 seen with
       | (st2, Some err) => (<[throttleKey ev2 := t2]> throttle1, st2, Returned (Some err))
       | (st2, None) => handleEventsFrom cfg rest (<[throttleKey ev2 := t2]> throttle1) st2
       end).
Proof.
  intros Hkey Hmid Hfirst Hrun seen all.
  assert (Ht1 : throttle1 !! throttleKey ev1 = Some t1).
  { rewrite handleEventsFrom_accept in Hrun by done.
    destruct (handleEvent _ _ _ _) as [st0 [err|]]; [discriminate|].
    apply (handleEventsFrom_other_keys cfg (throttleKey ev1)) in Hrun; [|done].
    rewrite Hrun. apply lookup_insert_eq. }
  assert (Hall : handleEventsFrom cfg all throttle st
                 = handleEventsFrom cfg (FromEvents ev2 t2 w2 :: rest) throttle1 st1).
  { unfold all. rewrite app_comm_cons, handleEventsFrom_app. by rewrite Hrun. }
  rewrite Hall. split; intros Ht2.
  - apply handleEventsFrom_skip. apply tooSoon_true. exists t1. by rewrite Hkey.
  - apply handleEventsFrom_accept. apply tooSoon_false.
    intros t Ht. rewrite Hkey, Ht1 in Ht. by injection Ht as <-.
Qed.

Lemma debounce_800ms_witness :
  goTests (log (handleEvents plainFlags
                  [FromEvents writeX 0 (worldOf (Exited 0));
                   FromEvents writeY 1 (worldOf (Exited 0));
                   FromEvents writeX 799999999 (worldOf (Exited 0))] start).1.2)
  = [GoTest "/proj/a" (testArgs plainFlags); GoTest "/proj/b" (testArgs plainFlags)] /\
  goTests (log (handleEvents plainFlags
                  [FromEvents writeX 0 (worldOf (Exited 0));
                   FromEvents writeY 1 (worldOf (Exited 0));
                   FromEvents writeX 800000000 (worldOf (Exited 0))] start).1.2)
  = [GoTest "/proj/a" (testArgs plainFlags); GoTest "/proj/b" (testArgs plainFlags);
     GoTest "/proj/a" (testArgs plainFlags)].
Proof.
  unfold handleEvents.
  set (throttle1 := <[throttleKey writeY := 1]> (<[throttleKey writeX := 0]> (∅ : gmap string Z))).
  set (st1 := {| watches := ∅;
                 log := [GoTest "/proj/a" (testArgs plainFlags);
                         GoTest "/proj/b" (testArgs plainFlags)] |}).
  assert (Hrun : handleEventsFrom plainFlags
                   [FromEvents writeX 0 (worldOf (Exited 0)); FromEvents writeY 1 (worldOf (Exited 0))]
                   ∅ start = (throttle1, st1, Waiting)).
  { rewrite handleEventsFrom_accept by reflexivity.
    rewrite handleEvent_write by (split; reflexivity).
    rewrite runTestsForFile_go by reflexivity.
    change (cmd_Run _) with (@None error). cbv iota beta.
    rewrite handleEventsFrom_accept by (by vm_compute).
    rewrite handleEvent_write by (split; reflexivity).
    rewrite runTestsForFile_go by reflexivity.
    reflexivity. }
  assert (Hlog : goTests (log st1)
                 = [GoTest "/proj/a" (testArgs plainFlags); GoTest "/proj/b" (testArgs plainFlags)])
    by reflexivity.
  assert (Hmid : Forall (fun i => inputKey i ≠ Some (throttleKey writeX))
                   [FromEvents writeY 1 (worldOf (Exited 0))]).
  { constructor; [by vm_compute|constructor]. }
  split.
  - pose proof (debounce_800ms plainFlags writeX writeX 0 799999999
                  (worldOf (Exited 0)) (worldOf (Exited 0)) _ [] ∅ throttle1 start st1
                  eq_refl Hmid eq_refl Hrun) as [H _].
    cbn [app] in H. rewrite H by (by vm_compute). exact Hlog.
  - pose proof (debounce_800ms plainFlags writeX writeX 0 800000000
                  (worldOf (Exited 0)) (worldOf (Exited 0)) _ [] ∅ throttle1 start st1
                  eq_refl Hmid eq_refl Hrun) as [_ H].
    cbn [app] in H. rewrite H by (by vm_compute).
    rewrite handleEvent_write by (split; reflexivity).
    rewrite runTestsForFile_go by reflexivity.
    change (cmd_Run _) with (@None error). cbn [handleEventsFrom fst snd].
    unfold afterGoTest. rewrite log_emit, goTests_app, !goTests_debugln, Hlog.
    reflexivity.
Defined.

(** C3 as it is worded fails: a write to /proj/a/x.go is accepted at 0 and
    its test command exits with 1, so the loop returns; the write to the
    same path 800 ms later is never read: one test run in all, and the table
    still holds the time 0 for the key. *)
Lemma late_event_is_not_dispatched_after_the_loop_returned :
  let run :=
    handleEvents plainFlags
      [FromEvents writeX 0 (worldOf (Exited 1));
       FromEvents writeX 800000000 (worldOf (Exited 0))] start in
  tooSoon ∅ (throttleKey writeX) 0 = false /\
  800 * time.Millisecond <= 800000000 - 0 /\
  run.2 = Returned (Some (ExitError 1)) /\
  goTests (log run.1.2) = [GoTest "/proj/a" ["test"; "-v"; "-run=Fast"]] /\
  run.1.1 !! throttleKey writeX = Some 0 /\
  ~ lateEventAlwaysAccepted.
Proof.
  cbn zeta. split; [reflexivity|]. split; [by vm_compute|].
  split; [by vm_compute|]. split; [by vm_compute|]. split; [by vm_compute|].
  intros H.
  specialize (H plainFlags writeX 0 800000000 (worldOf (Exited 1)) (worldOf (Exited 0)) start).
  assert (Hlate : 800 * time.Millisecond <= 800000000 - 0) by (by vm_compute).
  specialize (H Hlate). by vm_compute in H.
Qed.

(** C4: after one event the table is the old one when the event is dropped,
    and the old one with the event's own key set to the event's time when it
    is accepted (whatever the dispatcher then returns): no other key
    changes. So after a drop a later event is still measured against the
    time of the last accepted event. *)
Theorem throttle_keeps_last_accepted (cfg : Flags) (ev : Event) (now : time.Time) (w : World)
    (throttle : gmap string time.Time) (st : State) :
  let key := throttleKey ev in
  let throttle' := (handleEventsFrom cfg [FromEvents ev now w] throttle st).1.1 in
  (tooSoon throttle key now = true ->
     throttle' = throttle /\
     forall later, tooSoon throttle' key later = true
       <-> exists t, throttle !! key = Some t /\ later - t < 800 * time.Millisecond) /\
  (tooSoon throttle key now = false ->
     throttle' = <[key := now]> throttle /\
     throttle' !! key = Some now /\
     forall k, k ≠ key -> throttle' !! k = throttle !! k).
Proof.
  intros key throttle'. subst throttle'. split; intros Hsoon.
  - rewrite handleEventsFrom_skip by done. cbn [handleEventsFrom fst].
    split; [reflexivity|]. intros later. apply tooSoon_true.
  - rewrite handleEventsFrom_accept by done.
    assert (Heq : (match handleEvent cfg w ev
                           (debugln cfg ["watcher event:"; Name ev; Op_String (Op ev)] st) with
                   | (st', Some err) => (<[throttleKey ev := now]> throttle, st', Returned (Some err))
                   | (st', None) => handleEventsFrom cfg [] (<[throttleKey ev := now]> throttle) st'
                   end).1.1 = <[key := now]> throttle).
    { by destruct (handleEvent _ _ _ _) as [st' [err|]]. }
    rewrite Heq. split; [reflexivity|]. split.
    + apply lookup_insert_eq.
    + intros k Hk. by apply lookup_insert_ne.
Qed.

Lemma throttle_keeps_last_accepted_witness :
  let accepted := (handleEventsFrom plainFlags [FromEvents writeX 1000 (worldOf (Exited 0))] ∅ start).1.1 in
  let dropped := (handleEventsFrom plainFlags [FromEvents writeX 2000 (worldOf (Exited 0))] accepted start).1.1 in
  accepted !! throttleKey writeX = Some 1000 /\ dropped = accepted.
Proof.
  intros accepted dropped. split.
  - pose proof (throttle_keeps_last_accepted plainFlags writeX 1000 (worldOf (Exited 0)) ∅ start)
      as [_ H].
    destruct H as (_ & H & _); [reflexivity|]. exact H.
  - pose proof (throttle_keeps_last_accepted plainFlags writeX 2000 (worldOf (Exited 0)) accepted start)
      as [H _].
    destruct H as [H _]; [by vm_compute|]. exact H.
Defined.

(** ** C1: the exit status of the test command *)




(** ** C8: the reader of the operator's input *)

Lemma handleEnter_cons (cfg : Flags) (wd line : string) (w : World)
    (rest : list (string * World)) (st : State) :
  exists st1, watches st1 = watches st /\ log st1 = log st ++ lineLog cfg wd w /\
    handleEnter cfg wd ((line, w) :: rest) st = handleEnter cfg wd rest st1.
Proof.
  cbn [handleEnter]. unfold runTestsForDir. rewrite runGoTest_eq.
  unfold lineLog, afterGoTest, testArgs, debugln.
  destruct (cmd_Run _) as [err|]; eexists; (split; [|split; [|reflexivity]]);
    destruct (flagDebug cfg); cbn [log watches emit]; rewrite <- ?app_assoc; reflexivity.
Qed.

(** C8: every line the reader gets, whatever is on it, starts exactly one
    test command, in the directory [wd] that [main] also gave to
    [initWatches], with the arguments of the command line; an error of that
    run is written to the diagnostic stream and the reader goes on with the
    next line: it handles all of them and changes nothing else. *)
Theorem every_line_runs_the_tests_of_the_root (cfg : Flags) (wd : string)
    (lines : list (string * World)) (st : State) :
  let st' := handleEnter cfg wd lines st in
  watches st' = watches st /\
  log st' = log st ++ flat_map (fun l => lineLog cfg wd l.2) lines /\
  goTests (log st') = goTests (log st) ++ map (fun _ => GoTest wd ("test" :: flagArgs cfg)) lines.
Proof.
  revert st. induction lines as [|[line w] lines IH]; intros st.
  - cbn. by rewrite !app_nil_r.
  - destruct (handleEnter_cons cfg wd line w lines st) as (st1 & Hw & Hl & ->).
    destruct (IH st1) as (IHw & IHl & IHg). cbn zeta.
    split; [by rewrite IHw|]. split.
    + rewrite IHl, Hl. cbn [flat_map snd]. by rewrite <- app_assoc.
    + rewrite IHg, Hl. cbn [map]. rewrite goTests_app, <- app_assoc. f_equal.
      unfold lineLog. rewrite !goTests_app.
      destruct (flagDebug cfg), (cmd_Run _); reflexivity.
Qed.

(** ** C10: the debug flag *)

Section DebugFlag.

Variables cfg cfg' : Flags.
Hypothesis Hcfg : sameButDebug cfg cfg'.

Lemma debugln_same (args args' : list string) (st st' : State) :
  sameButStderr st st' -> sameButStderr (debugln cfg args st) (debugln cfg' args' st').
Proof.
  intros [Hw Hl]. split; [by rewrite !watches_debugln | by rewrite !quiet_debugln].
Qed.

Lemma emit_same (a : action) (st st' : State) :
  sameButStderr st st' -> sameButStderr (emit a st) (emit a st').
Proof.
  intros [Hw Hl]. split; [exact Hw|]. by rewrite !log_emit, !quiet_app, Hl.
Qed.

Lemma watcher_Add_same (add : string -> option error) (path : string) (st st' : State) :
  sameButStderr st st' ->
  sameButStderr (watcher_Add add path st).1 (watcher_Add add path st').1 /\
  (watcher_Add add path st).2 = (watcher_Add add path st').2.
Proof.
  intros H. apply (emit_same (WatchAdd path)) in H. unfold watcher_Add.
  destruct (add path) as [e|]; [done|]. cbn [fst snd]. split; [|done].
  destruct H as [Hw Hl]. split; cbn [watches log]; [by rewrite Hw|done].
Qed.

Lemma runGoTest_same (w : World) (dir : string) (st st' : State) :
  sameButStderr st st' ->
  sameButStderr (runGoTest cfg w dir st).1 (runGoTest cfg' w dir st').1 /\
  (runGoTest cfg w dir st).2 = (runGoTest cfg' w dir st').2.
Proof.
  intros H. rewrite !runGoTest_eq. unfold afterGoTest, testArgs. cbn [fst snd].
  rewrite <- Hcfg. split; [|done]. by apply emit_same, debugln_same.
Qed.

Lemma runTestsForFile_same (w : World) (file : string) (st st' : State) :
  sameButStderr st st' ->
  sameButStderr (runTestsForFile cfg w file st).1 (runTestsForFile cfg' w file st').1 /\
  (runTestsForFile cfg w file st).2 = (runTestsForFile cfg' w file st').2.
Proof.
  intros H. unfold runTestsForFile. destruct (decide _); [done|by apply runGoTest_same].
Qed.

Lemma handleEvent_same (w : World) (ev : Event) (st st' : State) :
  sameButStderr st st' ->
  sameButStderr (handleEvent cfg w ev st).1 (handleEvent cfg' w ev st').1 /\
  (handleEvent cfg w ev st).2 = (handleEvent cfg' w ev st').2.
Proof.
  intros H. unfold handleEvent.
  destruct (has (Op ev) Create).
  - destruct (decide _); [done|].
    pose proof (emit_same (StatCall (Name ev)) _ _ H) as H1.
    destruct (Stat w (Name ev)) as [err|[|]]; cbn [negb].
    + done.
    + pose proof (debugln_same ["Adding watch:"; Name ev] ["Adding watch:"; Name ev] _ _ H1) as H2.
      destruct (watcher_Add_same (Add w) (Name ev) _ _ H2) as [Hs He].
      destruct (watcher_Add (Add w) (Name ev) (debugln cfg _ _)) as [s1 [e1|]],
               (watcher_Add (Add w) (Name ev) (debugln cfg' _ _)) as [s2 [e2|]];
        cbn [fst snd] in *; try discriminate; [|done].
      by injection He as ->.
    + by apply runTestsForFile_same.
  - destruct (has (Op ev) Write); [|done].
    destruct (runTestsForFile_same w (Name ev) _ _ H) as [Hs He].
    destruct (runTestsForFile cfg w (Name ev) st) as [s1 [e1|]],
             (runTestsForFile cfg' w (Name ev) st') as [s2 [e2|]];
      cbn [fst snd] in *; try discriminate; done.
Qed.

Lemma handleEventsFrom_same (inputs : list input) (throttle : gmap string time.Time)
    (st st' : State) :
  sameButStderr st st' ->
  let r := handleEventsFrom cfg inputs throttle st in
  let r' := handleEventsFrom cfg' inputs throttle st' in
  r.1.1 = r'.1.1 /\ sameButStderr r.1.2 r'.1.2 /\ r.2 = r'.2.
Proof.
  revert throttle st st'. induction inputs as [|i inputs IH]; intros throttle st st' H; [done|].
  destruct i as [[err|]|ev now w]; cbn zeta.
  - cbn [handleEventsFrom fst snd]. split; [done|]. split; [|done]. by apply debugln_same.
  - done.
  - pose proof (debugln_same ["watcher event:"; Name ev; Op_String (Op ev)]
                  ["watcher event:"; Name ev; Op_String (Op ev)] _ _ H) as H1.
    destruct (tooSoon throttle (throttleKey ev) now) eqn:Hsoon.
    + rewrite !handleEventsFrom_skip by done. apply IH. by apply debugln_same.
    + rewrite !handleEventsFrom_accept by done.
      destruct (handleEvent_same w ev _ _ H1) as [Hs He].
      destruct (handleEvent cfg w ev _) as [s1 [e1|]],
               (handleEvent cfg' w ev _) as [s2 [e2|]];
        cbn [fst snd] in *; try discriminate; [by injection He as ->|by apply IH].
Qed.

Lemma handleEnter_same (wd : string) (lines : list (string * World)) (st st' : State) :
  sameButStderr st st' ->
  sameButStderr (handleEnter cfg wd lines st) (handleEnter cfg' wd lines st').
Proof.
  revert st st'. induction lines as [|[line w] lines IH]; intros st st' H; [done|].
  cbn [handleEnter]. unfold runTestsForDir.
  destruct (runGoTest_same w wd _ _ H) as [Hs He].
  destruct (runGoTest cfg w wd st) as [s1 [e1|]],
           (runGoTest cfg' w wd st') as [s2 [e2|]];
    cbn [fst snd] in *; try discriminate; apply IH; [|done].
  injection He as ->. split; [apply Hs|].
  rewrite !log_emit, !quiet_app. f_equal. apply Hs.
Qed.

End DebugFlag.

(** ** The walk *)

(** Induction on a file tree, with the property in hand for every entry of
    a directory. *)
Lemma entry_tree_ind (P : entry -> Prop) :
  P File ->
  (forall err, P (Gone err)) ->
  (forall readErr entries, Forall (fun ne => P ne.2) entries -> P (Dir readErr entries)) ->
  forall e, P e.
Proof.
  intros HFile HGone HDir. fix IH 1. intros [|readErr entries|err].
  - exact HFile.
  - apply HDir. induction entries as [|[name e] entries IHentries]; constructor.
    + apply IH.
    + exact IHentries.
  - apply HGone.
Qed.

Section WalkEquations.

Context {S : Type}.
Variable walkFn : WalkFunc S.

Lemma walk_Dir (path : string) (readErr : option error) (entries : list (string * entry)) (st : S) :
  walk walkFn path (Dir readErr entries) st
  = let '(st, err1) := walkFn path (Some true) readErr st in
    if bool_decide (readErr ≠ None) || bool_decide (err1 ≠ None) then (st, err1)
    else walkNames (walk walkFn) walkFn path entries st.
Proof. reflexivity. Qed.

Lemma walkNames_nil (path : string) (st : S) :
  walkNames (walk walkFn) walkFn path [] st = (st, None).
Proof. reflexivity. Qed.

Lemma walkNames_Gone (path name : string) (err : error) (names : list (string * entry)) (st : S) :
  walkNames (walk walkFn) walkFn path ((name, Gone err) :: names) st
  = match walkFn (filepath.Join path name) None (Some err) st with
    | (st, Some err) =>
        if decide (err ≠ SkipDir) then (st, Some err)
        else walkNames (walk walkFn) walkFn path names st
    | (st, None) => walkNames (walk walkFn) walkFn path names st
    end.
Proof. reflexivity. Qed.

Lemma walkNames_found (path name : string) (fileInfo : entry) (names : list (string * entry)) (st : S) :
  (forall err, fileInfo ≠ Gone err) ->
  walkNames (walk walkFn) walkFn path ((name, fileInfo) :: names) st
  = match walk walkFn (filepath.Join path name) fileInfo st with
    | (st, Some err) =>
        if negb (entryIsDir fileInfo) || bool_decide (err ≠ SkipDir)
        then (st, Some err)
        else walkNames (walk walkFn) walkFn path names st
    | (st, None) => walkNames (walk walkFn) walkFn path names st
    end.
Proof. intros H. destruct fileInfo as [| |err]; [reflexivity|reflexivity|by destruct (H err)]. Qed.

End WalkEquations.

(** Two walks with functions that keep a relation between their states and
    return the same errors keep the relation and return the same error. *)
Section WalkRelated.

Context {S : Type}.
Variable R : S -> S -> Prop.
Variables fn fn' : WalkFunc S.

Hypothesis Hfn : forall path info err st st',
  R st st' -> relatedResults R (fn path info err st) (fn' path info err st').

Lemma walk_related (e : entry) :
  forall path st st', R st st' -> relatedResults R (walk fn path e st) (walk fn' path e st').
Proof.
  induction e as [|err|readErr entries IH] using entry_tree_ind; intros path st st' HR.
  - by apply Hfn.
  - by apply Hfn.
  - rewrite !walk_Dir.
    destruct (Hfn path (Some true) readErr st st' HR) as [HR1 He1].
    destruct (fn path (Some true) readErr st) as [s1 e1],
             (fn' path (Some true) readErr st') as [s2 e2].
    cbn [fst snd] in HR1, He1. subst e2.
    destruct (bool_decide (readErr ≠ None) || bool_decide (e1 ≠ None)); [done|].
    clear HR. revert s1 s2 HR1.
    induction IH as [|[name info] names Hinfo _ IHnames]; intros s1 s2 HR1; [done|].
    cbn [snd] in Hinfo.
    destruct info as [|readErr' entries'|err].
    + rewrite !walkNames_found by done.
      destruct (Hinfo (filepath.Join path name) s1 s2 HR1) as [HR2 He2].
      destruct (walk fn _ File s1) as [t1 [x1|]], (walk fn' _ File s2) as [t2 [x2|]];
        cbn [fst snd] in HR2, He2; try discriminate; [|by apply IHnames].
      injection He2 as <-. cbn [entryIsDir negb orb]. done.
    + rewrite !walkNames_found by done.
      destruct (Hinfo (filepath.Join path name) s1 s2 HR1) as [HR2 He2].
      destruct (walk fn _ (Dir _ _) s1) as [t1 [x1|]], (walk fn' _ (Dir _ _) s2) as [t2 [x2|]];
        cbn [fst snd] in HR2, He2; try discriminate; [|by apply IHnames].
      injection He2 as <-. cbn [entryIsDir negb orb].
      destruct (bool_decide (x1 ≠ SkipDir)); [done|by apply IHnames].
    + rewrite !walkNames_Gone.
      destruct (Hfn (filepath.Join path name) None (Some err) s1 s2 HR1) as [HR2 He2].
      destruct (fn _ None (Some err) s1) as [t1 [x1|]], (fn' _ None (Some err) s2) as [t2 [x2|]];
        cbn [fst snd] in HR2, He2; try discriminate; [|by apply IHnames].
      injection He2 as <-.
      destruct (decide (x1 ≠ SkipDir)); [done|by apply IHnames].
Qed.

Lemma Walk_related (root : string) (tree : entry) (st st' : S) :
  R st st' -> relatedResults R (Walk root tree fn st) (Walk root tree fn' st').
Proof.
  intros HR. unfold Walk.
  destruct (walk_related tree root st st' HR) as [HR1 He1].
  destruct (walk fn root tree st) as [s1 e1], (walk fn' root tree st') as [s2 e2].
  cbn [fst snd] in HR1, He1. subst e2.
  by destruct e1 as [[]|].
Qed.

End WalkRelated.

Lemma initWatches_same (cfg cfg' : Flags) (sw : Startup) (workingDir : string) (st st' : State) :
  sameButStderr st st' ->
  sameButStderr (initWatches cfg sw workingDir st).1 (initWatches cfg' sw workingDir st').1 /\
  (initWatches cfg sw workingDir st).2 = (initWatches cfg' sw workingDir st').2.
Proof.
  intros H. unfold initWatches. destruct (NewWatcher sw) as [err|]; [done|].
  assert (Hfn : forall path info err s s', sameButStderr s s' ->
            relatedResults sameButStderr
              (initWatchesFn cfg (AddAtStart sw) path info err s)
              (initWatchesFn cfg' (AddAtStart sw) path info err s')).
  { intros path info err s s' Hs. unfold initWatchesFn, relatedResults.
    destruct err as [err|]; [done|].
    destruct (negb (default false info)); [done|].
    destruct (decide _); [done|].
    pose proof (debugln_same cfg cfg' ["Adding watch:"; path] ["Adding watch:"; path] _ _ Hs) as Hs1.
    destruct (watcher_Add_same (AddAtStart sw) path _ _ Hs1) as [Hs2 He].
    destruct (watcher_Add _ path (debugln cfg _ _)) as [s1 [e1|]],
             (watcher_Add _ path (debugln cfg' _ _)) as [s2 [e2|]];
      cbn [fst snd] in *; try discriminate; [|done].
    by injection He as ->. }
  destruct (Walk_related sameButStderr _ _ Hfn workingDir (Root sw) st st' H) as [HR He].
  destruct (Walk _ _ (initWatchesFn cfg _) st) as [s1 [e1|]],
           (Walk _ _ (initWatchesFn cfg' _) st') as [s2 [e2|]];
    cbn [fst snd] in *; try discriminate; done.
Qed.

(** C10: two runs whose command lines differ only in the debug flag, on the
    same tree, the same inputs and the same lines: startup returns the same
    error or none and builds the same set of watches, the event loop ends in
    the same way with the same throttle table (so it accepted and dropped the
    same events) and the same watches, and both logs are the same once the
    lines written to the diagnostic stream are left out: the same stats, the
    same watches added and the same test commands with the same directories
    and arguments, in the same order. *)
Theorem debug_flag_only_adds_stderr_lines (cfg cfg' : Flags) (sw : Startup) (wd : string)
    (inputs : list input) (lines : list (string * World)) (st st' : State) :
  sameButDebug cfg cfg' ->
  sameButStderr st st' ->
  let i := initWatches cfg sw wd st in
  let i' := initWatches cfg' sw wd st' in
  let r := handleEvents cfg inputs st in
  let r' := handleEvents cfg' inputs st' in
  let e := handleEnter cfg wd lines st in
  let e' := handleEnter cfg' wd lines st' in
  (i.2 = i'.2 /\ watches i.1 = watches i'.1 /\ quiet (log i.1) = quiet (log i'.1)) /\
  (r.2 = r'.2 /\ r.1.1 = r'.1.1 /\
   watches r.1.2 = watches r'.1.2 /\ quiet (log r.1.2) = quiet (log r'.1.2)) /\
  (watches e = watches e' /\ quiet (log e) = quiet (log e')).
Proof.
  intros Hcfg Hst. cbn zeta. split; [|split].
  - destruct (initWatches_same cfg cfg' sw wd st st' Hst) as [[Hw Hl] He]. done.
  - destruct (handleEventsFrom_same cfg cfg' Hcfg inputs ∅ st st' Hst) as (Ht & [Hw Hl] & Hs).
    done.
  - by apply handleEnter_same.
Qed.

Lemma debug_flag_only_adds_stderr_lines_witness :
  sameButDebug debugFlags plainFlags /\ sameButStderr start start /\
  quiet (log (handleEvents debugFlags
                [FromEvents writeX 0 (worldOf (Exited 0)); FromEvents writeX 5 (worldOf (Exited 0))]
                start).1.2)
  = quiet (log (handleEvents plainFlags
                  [FromEvents writeX 0 (worldOf (Exited 0)); FromEvents writeX 5 (worldOf (Exited 0))]
                  start).1.2).
Proof.
  assert (Hcfg : sameButDebug debugFlags plainFlags) by reflexivity.
  assert (Hst : sameButStderr start start) by (split; reflexivity).
  split; [exact Hcfg|]. split; [exact Hst|].
  pose proof (debug_flag_only_adds_stderr_lines debugFlags plainFlags projStartup "/proj"
                [FromEvents writeX 0 (worldOf (Exited 0)); FromEvents writeX 5 (worldOf (Exited 0))]
                [] start start Hcfg Hst) as (_ & (_ & _ & _ & Hquiet) & _).
  exact Hquiet.
Defined.

(** ** C2: the watches of startup *)

Lemma filter_flat_map {A B : Type} (p : B -> bool) (f : A -> list B) (l : list A) :
  List.filter p (flat_map f l) = flat_map (fun x => List.filter p (f x)) l.
Proof.
  induction l as [|x l IH]; [reflexivity|].
  cbn [flat_map]. by rewrite List.filter_app, IH.
Qed.

Lemma watchedAtStart_Dir (path : string) (readErr : option error) (entries : list (string * entry)) :
  watchedAtStart path (Dir readErr entries)
  = List.filter notVendor [path]
    ++ flat_map (fun ne => watchedAtStart (filepath.Join path ne.1) ne.2) entries.
Proof.
  unfold watchedAtStart. cbn [dirPaths].
  change (path :: ?l) with ([path] ++ l).
  by rewrite List.filter_app, filter_flat_map.
Qed.

(** For an entry of a directory the test on the path is a test on the name
    of the entry. *)
Lemma notVendor_Join (dir name : string) :
  dir ≠ "" -> fileName name ->
  notVendor (filepath.Join dir name) = bool_decide (name ≠ "vendor").
Proof. intros Hdir Hname. unfold notVendor. by rewrite Base_Join. Qed.

Section HealthyWalk.

Variable cfg : Flags.
Variable add : string -> option error.
Hypothesis Hadd : forall path, add path = None.





End HealthyWalk.




(** * Further properties *)

(** ** What the dispatcher and the loop add to the log *)

Lemma extends_refl (P : action -> Prop) (st : State) : extends P st st.
Proof. exists []. by rewrite app_nil_r. Qed.

Lemma extends_trans (P : action -> Prop) (st1 st2 st3 : State) :
  extends P st1 st2 -> extends P st2 st3 -> extends P st1 st3.
Proof.
  intros (l1 & H1 & HP1) (l2 & H2 & HP2). exists (l1 ++ l2).
  split; [by rewrite H2, H1, app_assoc|by apply Forall_app].
Qed.

Lemma extends_emit (P : action -> Prop) (a : action) (st : State) :
  P a -> extends P st (emit a st).
Proof. intros Ha. exists [a]. split; [reflexivity|by constructor]. Qed.

Lemma extends_debugln (P : action -> Prop) (cfg : Flags) (args : list string) (st : State) :
  (forall line, flagDebug cfg = true -> P (Stderr line)) ->
  extends P st (debugln cfg args st).
Proof.
  intros HP. unfold debugln. destruct (flagDebug cfg) eqn:Hd.
  - by apply extends_emit, HP.
  - apply extends_refl.
Qed.

Lemma extends_impl (P Q : action -> Prop) (st st' : State) :
  (forall a, P a -> Q a) -> extends P st st' -> extends Q st st'.
Proof.
  intros HPQ (l & Hl & HP). exists l. split; [done|].
  eapply Forall_impl; [exact HP|exact HPQ].
Qed.

Lemma runTestsForFile_extends (cfg : Flags) (w : World) (ev : Event) (st : State) :
  let r := runTestsForFile cfg w (Name ev) st in
  extends (fromEvent cfg ev) st r.1 /\ watches r.1 = watches st.
Proof.
  cbn zeta. destruct (decide (extension (Name ev) = ".go")) as [Hext|Hext].
  - rewrite runTestsForFile_go by done. unfold afterGoTest. cbn [fst]. split.
    + eapply extends_trans; [by apply extends_debugln|].
      by apply extends_emit.
    + by rewrite watches_emit, watches_debugln.
  - rewrite runTestsForFile_other by done. split; [apply extends_refl|reflexivity].
Qed.

(** What one call of the dispatcher does to the state: it adds actions that
    come from the event, and either leaves the watches alone or adds the
    path of the event, which then is a new directory not called vendor that
    the watcher took. *)
Lemma handleEvent_effect (cfg : Flags) (w : World) (ev : Event) (st : State) :
  let r := handleEvent cfg w ev st in
  extends (fromEvent cfg ev) st r.1 /\
  (watches r.1 = watches st \/
   (watches r.1 = {[Name ev]} ∪ watches st /\ r.2 = None /\
    has (Op ev) Create = true /\ filepath.Base (Name ev) ≠ "vendor" /\
    Stat w (Name ev) = inr true /\ Add w (Name ev) = None)).
Proof.
  cbn zeta. unfold handleEvent. destruct (has (Op ev) Create) eqn:Hc.
  - destruct (decide _) as [Hv|Hv]; [split; [apply extends_refl|by left]|].
    assert (Hstat : extends (fromEvent cfg ev) st (emit (StatCall (Name ev)) st))
      by (by apply extends_emit).
    destruct (Stat w (Name ev)) as [err|[|]] eqn:Hs; cbn [negb fst snd].
    + split; [exact Hstat|by left].
    + unfold watcher_Add.
      assert (Hadd : extends (fromEvent cfg ev) st
                (emit (WatchAdd (Name ev))
                   (debugln cfg ["Adding watch:"; Name ev] (emit (StatCall (Name ev)) st)))).
      { eapply extends_trans; [exact Hstat|].
        eapply extends_trans; [by apply extends_debugln|]. by apply extends_emit. }
      destruct (Add w (Name ev)) as [err|] eqn:Ha; cbn [fst snd].
      * split; [exact Hadd|]. left. by rewrite watches_emit, watches_debugln.
      * split; [exact Hadd|]. right. cbn [watches].
        by rewrite watches_emit, watches_debugln.
    + destruct (runTestsForFile_extends cfg w ev (emit (StatCall (Name ev)) st)) as [He Hw].
      split; [by eapply extends_trans|]. left. by rewrite Hw.
  - destruct (has (Op ev) Write).
    + destruct (runTestsForFile_extends cfg w ev st) as [He Hw]. cbn zeta in He, Hw.
      destruct (runTestsForFile cfg w (Name ev) st) as [s [e|]]; split; try done; by left.
    + split; [apply extends_refl|by left].
Qed.

Lemma fromEvent_fromInputs (cfg : Flags) (ev : Event) (now : time.Time) (w : World)
    (inputs : list input) (a : action) :
  In (FromEvents ev now w) inputs -> fromEvent cfg ev a -> fromInputs cfg inputs a.
Proof. intros Hin Ha. destruct a; [exact Ha|by exists ev, now, w..]. Qed.

Lemma fromInputs_cons (cfg : Flags) (i : input) (inputs : list input) (a : action) :
  fromInputs cfg inputs a -> fromInputs cfg (i :: inputs) a.
Proof.
  destruct a; [done|..]; intros (ev & now & w & Hin & Ha); exists ev, now, w;
    (split; [by right|done]).
Qed.

(** The loop: the actions it adds come from its inputs, the watches it had
    stay, and every new watch is the path of an input event with the Create
    bit, not called vendor, that was a directory when the loop looked. *)
Lemma handleEventsFrom_effect (cfg : Flags) (inputs : list input)
    (throttle : gmap string time.Time) (st : State) :
  let r := handleEventsFrom cfg inputs throttle st in
  extends (fromInputs cfg inputs) st r.1.2 /\
  watches st ⊆ watches r.1.2 /\
  forall path, path ∈ watches r.1.2 -> path ∈ watches st \/
    exists ev now w, In (FromEvents ev now w) inputs /\ Name ev = path /\
      has (Op ev) Create = true /\ filepath.Base path ≠ "vendor" /\
      Stat w path = inr true /\ Add w path = None.
Proof.
  revert throttle st. induction inputs as [|i inputs IH]; intros throttle st; cbn zeta.
  - split; [apply extends_refl|]. split; [done|]. intros path Hp. by left.
  - destruct i as [[err|]|ev now w].
    + cbn [handleEventsFrom fst snd]. split; [by apply extends_debugln|].
      rewrite watches_debugln. split; [done|]. intros path Hp. by left.
    + cbn [handleEventsFrom fst snd]. split; [apply extends_refl|].
      split; [done|]. intros path Hp. by left.
    + set (st0 := debugln cfg ["watcher event:"; Name ev; Op_String (Op ev)] st).
      assert (H0 : extends (fromInputs cfg (FromEvents ev now w :: inputs)) st st0)
        by (by apply extends_debugln).
      assert (Hlater : forall s s', extends (fromInputs cfg inputs) s s' ->
                extends (fromInputs cfg (FromEvents ev now w :: inputs)) s s').
      { intros s s'. apply extends_impl. apply fromInputs_cons. }
      assert (Hpath : forall s path,
                (path ∈ watches s \/
                 exists ev' now' w', In (FromEvents ev' now' w') inputs /\ Name ev' = path /\
                   has (Op ev') Create = true /\ filepath.Base path ≠ "vendor" /\
                   Stat w' path = inr true /\ Add w' path = None) ->
                watches s = watches st ->
                path ∈ watches st \/
                 exists ev' now' w', In (FromEvents ev' now' w') (FromEvents ev now w :: inputs) /\
                   Name ev' = path /\
                   has (Op ev') Create = true /\ filepath.Base path ≠ "vendor" /\
                   Stat w' path = inr true /\ Add w' path = None).
      { intros s path [Hp|(ev' & now' & w' & Hin & Hrest)] Hs.
        - left. by rewrite <- Hs.
        - right. exists ev', now', w'. split; [by right|done]. }
      destruct (tooSoon throttle (throttleKey ev) now) eqn:Hsoon.
      * rewrite handleEventsFrom_skip by done. fold st0.
        set (st1 := debugln cfg ["skipping event, less than 800ms"] st0).
        destruct (IH throttle st1) as (He & Hsub & Hnew). cbn zeta in He, Hsub, Hnew.
        assert (Hw1 : watches st1 = watches st) by (unfold st1, st0; by rewrite !watches_debugln).
        split; [|split].
        -- eapply extends_trans; [exact H0|]. eapply extends_trans; [|by apply Hlater].
           by apply extends_debugln.
        -- by rewrite <- Hw1.
        -- intros path Hp. exact (Hpath st1 path (Hnew path Hp) Hw1).
      * rewrite handleEventsFrom_accept by done. fold st0.
        destruct (handleEvent_effect cfg w ev st0) as [He Hw]. cbn zeta in He, Hw.
        assert (He' : extends (fromInputs cfg (FromEvents ev now w :: inputs)) st
                        (handleEvent cfg w ev st0).1).
        { eapply extends_trans; [exact H0|]. eapply extends_impl; [|exact He].
          intros a. apply (fromEvent_fromInputs cfg ev now w). by left. }
        assert (Hw0 : watches st0 = watches st) by (unfold st0; by rewrite watches_debugln).
        destruct (handleEvent cfg w ev st0) as [s1 [err|]]; cbn [fst snd] in *.
        -- split; [exact He'|].
           destruct Hw as [Hw|(_ & [=] & _)]. rewrite Hw, Hw0.
           split; [done|]. intros path Hp. by left.
        -- destruct (IH (<[throttleKey ev := now]> throttle) s1) as (Hl & Hsub & Hnew).
           cbn zeta in Hl, Hsub, Hnew.
           split; [by eapply extends_trans; [exact He'|apply Hlater]|].
           destruct Hw as [Hw|(Hw & _ & Hc & Hv & Hs & Ha)]; rewrite Hw0 in Hw.
           ++ split; [by rewrite <- Hw|]. intros path Hp. exact (Hpath s1 path (Hnew path Hp) Hw).
           ++ split; [rewrite <- Hsub, Hw; apply union_subseteq_r|].
              intros path Hp. destruct (Hnew path Hp) as [Hin|Hin].
              ** rewrite Hw in Hin. apply elem_of_union in Hin as [Hin|Hin]; [|by left].
                 apply elem_of_singleton in Hin as ->. right.
                 exists ev, now, w. split; [by left|done].
              ** right. destruct Hin as (ev' & now' & w' & Hin & Hrest).
                 exists ev', now', w'. split; [by right|done].
Qed.

(** X1: whatever the inputs, the loop never takes a path out of the set of
    watches, and every path it adds is the path of an input event with the
    Create bit, not called vendor, that was a directory when the loop
    inspected it and that the watcher took. *)
Theorem loop_only_adds_created_directories (cfg : Flags) (inputs : list input)
    (throttle : gmap string time.Time) (st : State) (path : string) :
  let st' := (handleEventsFrom cfg inputs throttle st).1.2 in
  (path ∈ watches st -> path ∈ watches st') /\
  (path ∈ watches st' -> path ∉ watches st ->
   exists ev now w, In (FromEvents ev now w) inputs /\ Name ev = path /\
     has (Op ev) Create = true /\ filepath.Base path ≠ "vendor" /\
     Stat w path = inr true /\ Add w path = None).
Proof.
  destruct (handleEventsFrom_effect cfg inputs throttle st) as (_ & Hsub & Hnew).
  cbn zeta in *. split.
  - apply Hsub.
  - intros Hp Hnot. by destruct (Hnew path Hp).
Qed.

(** X2: every test command the loop starts has the arguments [test]
    followed by the arguments of the command line, and runs in the directory
    of the path of an input event whose base name has the extension .go. The
    log the loop had is kept in front of what it adds. *)
Theorem loop_tests_come_from_go_events (cfg : Flags) (inputs : list input)
    (throttle : gmap string time.Time) (st : State) :
  exists added, log (handleEventsFrom cfg inputs throttle st).1.2 = log st ++ added /\
    forall dir args, In (GoTest dir args) added ->
      args = "test" :: flagArgs cfg /\
      exists ev now w, In (FromEvents ev now w) inputs /\
        dir = filepath.Dir (Name ev) /\ extension (Name ev) = ".go".
Proof.
  destruct (handleEventsFrom_effect cfg inputs throttle st) as ((added & Hlog & Hall) & _).
  exists added. split; [exact Hlog|]. intros dir args Hin.
  rewrite Forall_forall in Hall. apply list_elem_of_In, Hall in Hin.
  destruct Hin as (ev & now & w & Hin & -> & -> & Hext).
  split; [reflexivity|]. by exists ev, now, w.
Qed.

(** X3: without the debug flag the event loop writes nothing to the
    diagnostic stream, whatever it reads and however it ends, also when it
    returns an error. *)
Theorem loop_is_silent_without_debug (cfg : Flags) (inputs : list input)
    (throttle : gmap string time.Time) (st : State) :
  flagDebug cfg = false ->
  stderrLines (log (handleEventsFrom cfg inputs throttle st).1.2) = stderrLines (log st).
Proof.
  intros Hd.
  destruct (handleEventsFrom_effect cfg inputs throttle st) as ((added & Hlog & Hall) & _).
  cbn zeta in Hlog. rewrite Hlog. clear Hlog. unfold stderrLines. rewrite List.filter_app.
  assert (Hnone : List.filter isStderr added = []); [|by rewrite Hnone, app_nil_r].
  induction Hall as [|a added Ha _ IH]; [reflexivity|].
  destruct a; cbn; [|exact IH..]. cbn in Ha. congruence.
Qed.

Lemma loop_is_silent_without_debug_witness :
  flagDebug plainFlags = false /\
  stderrLines (log (handleEventsFrom plainFlags
                      [FromEvents createZ 5 worldOfGone; FromEvents writeX 9 (worldOf (Exited 0))]
                      ∅ start).1.2)
  = stderrLines (log start).
Proof.
  split; [reflexivity|].
  apply (loop_is_silent_without_debug plainFlags
           [FromEvents createZ 5 worldOfGone; FromEvents writeX 9 (worldOf (Exited 0))] ∅ start).
  reflexivity.
Defined.

(** ** The throttle table over a run of the loop *)

Lemma tooSoon_false_le (throttle : gmap string time.Time) (key : string) (now t : time.Time) :
  tooSoon throttle key now = false -> throttle !! key = Some t -> t <= now.
Proof.
  intros Hsoon Ht. rewrite tooSoon_false in Hsoon. specialize (Hsoon t Ht).
  unfold time.Millisecond in Hsoon. lia.
Qed.

(** X4: the loop never takes a key out of the throttle table and never moves
    the time of a key back. *)
Theorem throttle_entries_stay_and_never_go_back (cfg : Flags) (inputs : list input)
    (throttle : gmap string time.Time) (st : State) (key : string) (t : time.Time) :
  throttle !! key = Some t ->
  exists t', (handleEventsFrom cfg inputs throttle st).1.1 !! key = Some t' /\ t <= t'.
Proof.
  revert throttle st t. induction inputs as [|i inputs IH]; intros throttle st t Ht.
  - exists t. split; [exact Ht|lia].
  - destruct i as [[err|]|ev now w]; [exists t; split; [exact Ht|lia]..|].
    destruct (tooSoon throttle (throttleKey ev) now) eqn:Hsoon.
    + rewrite handleEventsFrom_skip by done. by apply IH.
    + rewrite handleEventsFrom_accept by done.
      assert (Hnew : exists t1, <[throttleKey ev := now]> throttle !! key = Some t1 /\ t <= t1).
      { destruct (decide (throttleKey ev = key)) as [<-|Hne].
        - exists now. split; [apply lookup_insert_eq|by eapply tooSoon_false_le].
        - exists t. split; [by rewrite lookup_insert_ne|lia]. }
      destruct Hnew as (t1 & Ht1 & Hle).
      destruct (handleEvent _ _ _ _) as [st' [err|]]; cbn [fst].
      * by exists t1.
      * destruct (IH _ st' t1 Ht1) as (t' & Ht' & Hle'). exists t'. split; [exact Ht'|lia].
Qed.

Lemma throttle_entries_stay_and_never_go_back_witness :
  exists t', (handleEventsFrom plainFlags
                [FromEvents writeY 7 (worldOf (Exited 1)); FromEvents writeX 9 (worldOf (Exited 0))]
                {[throttleKey writeX := 3]} start).1.1 !! throttleKey writeX = Some t' /\ 3 <= t'.
Proof.
  apply (throttle_entries_stay_and_never_go_back plainFlags
           [FromEvents writeY 7 (worldOf (Exited 1)); FromEvents writeX 9 (worldOf (Exited 0))]
           {[throttleKey writeX := 3]} start (throttleKey writeX) 3).
  apply lookup_singleton_eq.
Defined.

(** X5: every entry of the throttle table after the loop was there before,
    or is the key of an input event with the time at which the loop took it
    up; so the table grows by at most one key for each event read. *)
Theorem throttle_entries_come_from_events (cfg : Flags) (inputs : list input)
    (throttle : gmap string time.Time) (st : State) :
  let throttle' := (handleEventsFrom cfg inputs throttle st).1.1 in
  (forall key t, throttle' !! key = Some t ->
     throttle !! key = Some t \/
     exists ev w, In (FromEvents ev t w) inputs /\ throttleKey ev = key) /\
  (size throttle' <= size throttle + length (List.filter isEvent inputs))%nat.
Proof.
  revert throttle st. induction inputs as [|i inputs IH]; intros throttle st; cbn zeta.
  - split; [by left|cbn; lia].
  - destruct i as [[err|]|ev now w]; [split; [by left|cbn; lia]..|].
    destruct (tooSoon throttle (throttleKey ev) now) eqn:Hsoon.
    + rewrite handleEventsFrom_skip by done.
      destruct (IH throttle (debugln cfg ["skipping event, less than 800ms"]
                   (debugln cfg ["watcher event:"; Name ev; Op_String (Op ev)] st)))
        as [Hkeys Hsize]. cbn zeta in Hkeys, Hsize. split.
      * intros key t Ht. destruct (Hkeys key t Ht) as [H|(ev' & w' & Hin & Hk)]; [by left|].
        right. exists ev', w'. split; [by right|done].
      * cbn [List.filter isEvent length]. lia.
    + rewrite handleEventsFrom_accept by done.
      assert (Hins : forall key t, <[throttleKey ev := now]> throttle !! key = Some t ->
                throttle !! key = Some t \/
                exists ev' w', In (FromEvents ev' t w') (FromEvents ev now w :: inputs) /\
                  throttleKey ev' = key).
      { intros key t. destruct (decide (throttleKey ev = key)) as [<-|Hne].
        - rewrite lookup_insert_eq. intros [= <-]. right. exists ev, w. split; [by left|done].
        - rewrite lookup_insert_ne by done. by left. }
      assert (Hsz : (size (<[throttleKey ev := now]> throttle) <= S (size throttle))%nat).
      { destruct (throttle !! throttleKey ev) eqn:Hk.
        - rewrite map_size_insert_Some by eauto. lia.
        - rewrite map_size_insert_None by done. lia. }
      destruct (handleEvent _ _ _ _) as [st' [err|]]; cbn [fst].
      * split; [exact Hins|]. cbn [List.filter isEvent length]. lia.
      * destruct (IH (<[throttleKey ev := now]> throttle) st') as [Hkeys Hsize].
        cbn zeta in Hkeys, Hsize. split.
        -- intros key t Ht. destruct (Hkeys key t Ht) as [H|(ev' & w' & Hin & Hk)].
           ++ by apply Hins.
           ++ right. exists ev', w'. split; [by right|done].
        -- cbn [List.filter isEvent length]. lia.
Qed.

(** ** More cases of the dispatcher and the loop *)

(** X6: an event with neither the Create nor the Write bit (a removal, a
    renaming, a change of mode) makes the dispatcher do nothing; the loop
    still enters it in the throttle table, and goes on with the next
    input. *)
Theorem other_operations_only_reach_the_throttle_table (cfg : Flags) (w : World) (ev : Event)
    (now : time.Time) (rest : list input) (throttle : gmap string time.Time) (st : State) :
  has (Op ev) Create = false ->
  has (Op ev) Write = false ->
  tooSoon throttle (throttleKey ev) now = false ->
  handleEvent cfg w ev st = (st, None) /\
  handleEventsFrom cfg (FromEvents ev now w :: rest) throttle st
  = handleEventsFrom cfg rest (<[throttleKey ev := now]> throttle)
      (debugln cfg ["watcher event:"; Name ev; Op_String (Op ev)] st).
Proof.
  intros Hc Hw Hsoon.
  assert (Hev : forall s, handleEvent cfg w ev s = (s, None)).
  { intros s. unfold handleEvent. by rewrite Hc, Hw. }
  split; [apply Hev|]. rewrite handleEventsFrom_accept by done. by rewrite Hev.
Qed.

Lemma other_operations_only_reach_the_throttle_table_witness :
  let removeX := {| Name := "/proj/a/x.go"; Op := Remove |} in
  (handleEvents debugFlags [FromEvents removeX 5 worldOfGone] start).1.1 !! "/proj/a/x.go:REMOVE"
  = Some 5 /\
  quiet (log (handleEvents debugFlags [FromEvents removeX 5 worldOfGone] start).1.2) = [].
Proof.
  intros removeX. unfold handleEvents.
  destruct (other_operations_only_reach_the_throttle_table debugFlags worldOfGone removeX 5 []
              ∅ start) as [_ H]; [reflexivity..|].
  rewrite H. split; [apply lookup_insert_eq|reflexivity].
Defined.

(** X7: the creation of a directory that is not called vendor, and that the
    watcher takes, puts its path among the watches and starts no test
    command; the loop reads the next input only with the path watched. *)
Theorem created_directory_is_watched_before_the_next_event (cfg : Flags) (w : World)
    (ev : Event) (now : time.Time) (rest : list input) (throttle : gmap string time.Time)
    (st : State) :
  isCreate ev ->
  filepath.Base (Name ev) ≠ "vendor" ->
  Stat w (Name ev) = inr true ->
  Add w (Name ev) = None ->
  tooSoon throttle (throttleKey ev) now = false ->
  exists st', handleEventsFrom cfg (FromEvents ev now w :: rest) throttle st
              = handleEventsFrom cfg rest (<[throttleKey ev := now]> throttle) st' /\
    watches st' = {[Name ev]} ∪ watches st /\
    quiet (log st') = quiet (log st) ++ [StatCall (Name ev); WatchAdd (Name ev)].
Proof.
  intros Hc Hv Hs Ha Hsoon. rewrite handleEventsFrom_accept by done.
  unfold handleEvent, watcher_Add. rewrite Hc, Hs, Ha.
  destruct (decide _); [contradiction|]. cbn [negb]. eexists. split; [reflexivity|].
  cbn [watches log]. split.
  - by rewrite watches_emit, !watches_debugln, watches_emit, watches_debugln.
  - rewrite log_emit, quiet_app, quiet_debugln, log_emit, quiet_app, quiet_debugln.
    by rewrite <- app_assoc.
Qed.

Lemma created_directory_is_watched_before_the_next_event_witness :
  let newDir := {| Name := "/proj/a/sub"; Op := Create |} in
  "/proj/a/sub" ∈ watches (handleEvents plainFlags [FromEvents newDir 5 worldOfDirs] start).1.2.
Proof.
  intros newDir. unfold handleEvents.
  destruct (created_directory_is_watched_before_the_next_event plainFlags worldOfDirs newDir 5
              [] ∅ start) as (st' & -> & Hw & _); [reflexivity|by vm_compute|reflexivity..|].
  cbn [handleEventsFrom fst snd]. rewrite Hw. apply elem_of_union_l, elem_of_singleton.
  reflexivity.
Defined.

(** X8: when the watcher refuses a newly created directory the dispatcher
    returns the watcher's error under the message
    "error removing watch on" and the path, the set of watches is as it
    was, and the loop returns that error without reading on. *)
Theorem refused_watch_ends_the_loop (cfg : Flags) (w : World) (ev : Event) (err : error)
    (now : time.Time) (rest : list input) (throttle : gmap string time.Time) (st : State) :
  isCreate ev ->
  filepath.Base (Name ev) ≠ "vendor" ->
  Stat w (Name ev) = inr true ->
  Add w (Name ev) = Some err ->
  tooSoon throttle (throttleKey ev) now = false ->
  let r := handleEventsFrom cfg (FromEvents ev now w :: rest) throttle st in
  r.2 = Returned (Some (withMessage err ("error removing watch on " +:+ Name ev))) /\
  watches r.1.2 = watches st /\
  quiet (log r.1.2) = quiet (log st) ++ [StatCall (Name ev); WatchAdd (Name ev)].
Proof.
  intros Hc Hv Hs Ha Hsoon r. subst r. rewrite handleEventsFrom_accept by done.
  unfold handleEvent, watcher_Add. rewrite Hc, Hs, Ha.
  destruct (decide _); [contradiction|]. cbn [negb fst snd].
  split; [reflexivity|]. split.
  - by rewrite watches_emit, !watches_debugln, watches_emit, watches_debugln.
  - rewrite log_emit, quiet_app, quiet_debugln, log_emit, quiet_app, quiet_debugln.
    by rewrite <- app_assoc.
Qed.

Lemma refused_watch_ends_the_loop_witness :
  let newDir := {| Name := "/proj/a/sub"; Op := Create |} in
  let full := {| Stat := fun _ => inr true;
                 Add := fun _ => Some (errorString "no space left on device");
                 Run := fun _ _ => Exited 0 |} in
  (handleEvents plainFlags [FromEvents newDir 5 full; FromEvents writeX 9 (worldOf (Exited 0))]
     start).2
  = Returned (Some (withMessage (errorString "no space left on device")
                      "error removing watch on /proj/a/sub")).
Proof.
  intros newDir full. unfold handleEvents.
  destruct (refused_watch_ends_the_loop plainFlags full newDir
              (errorString "no space left on device") 5
              [FromEvents writeX 9 (worldOf (Exited 0))] ∅ start) as (H & _);
    [reflexivity|by vm_compute|reflexivity..|].
  exact H.
Defined.

(** X9: a value received from the watcher's error channel ends the loop,
    after whatever events it handled before: the loop returns that error, or
    nil when the channel was closed, keeps the table and the watches it had,
    and reads nothing of what follows. *)
Theorem watcher_error_ends_the_loop (cfg : Flags) (before rest : list input)
    (err : option error) (throttle throttle' : gmap string time.Time) (st st' : State) :
  handleEventsFrom cfg before throttle st = (throttle', st', Waiting) ->
  let r := handleEventsFrom cfg (before ++ FromErrors err :: rest) throttle st in
  r.2 = Returned err /\ r.1.1 = throttle' /\ watches r.1.2 = watches st' /\
  quiet (log r.1.2) = quiet (log st').
Proof.
  intros Hrun r. subst r. rewrite handleEventsFrom_app, Hrun.
  destruct err as [err|]; cbn [handleEventsFrom fst snd]; [|done].
  by rewrite watches_debugln, quiet_debugln.
Qed.

Lemma watcher_error_ends_the_loop_witness :
  (handleEventsFrom plainFlags
     ([FromEvents writeX 0 (worldOf (Exited 0))]
      ++ FromErrors None :: [FromEvents writeY 9 (worldOf (Exited 0))]) ∅ start).2
  = Returned None.
Proof.
  destruct (watcher_error_ends_the_loop plainFlags [FromEvents writeX 0 (worldOf (Exited 0))]
              [FromEvents writeY 9 (worldOf (Exited 0))] None ∅
              (<[throttleKey writeX := 0]> ∅)
              start (afterGoTest plainFlags "/proj/a" start)) as (H & _); [reflexivity|].
  exact H.
Defined.

(** X10: the creation of a file that is not a directory and not called
    vendor is handled, once it has been inspected, as a write to that
    path. *)
Theorem created_file_is_handled_as_a_write (cfg : Flags) (w : World) (ev : Event) (st : State) :
  isCreate ev ->
  filepath.Base (Name ev) ≠ "vendor" ->
  Stat w (Name ev) = inr false ->
  handleEvent cfg w ev st
  = handleEvent cfg w {| Name := Name ev; Op := Write |} (emit (StatCall (Name ev)) st).
Proof.
  intros Hc Hv Hs. rewrite handleEvent_create_file by done.
  symmetry.
  apply (handleEvent_write cfg w {| Name := Name ev; Op := Write |}). split; reflexivity.
Qed.

Lemma created_file_is_handled_as_a_write_witness :
  goTests (log (handleEvent plainFlags (worldOf (Exited 0)) createZ start).1)
  = [GoTest "/proj/a" ["test"; "-v"; "-run=Fast"]].
Proof.
  rewrite (created_file_is_handled_as_a_write plainFlags (worldOf (Exited 0)) createZ start);
    [reflexivity|reflexivity|by vm_compute|reflexivity].
Defined.

(** X11: events that differ in their path or in the names of their
    operations never suppress each other: from the empty table of a fresh
    loop the second of two such events is handed to the dispatcher whatever
    the times are, so a write that follows the creation of the same path at
    once is handled. *)
Theorem different_events_do_not_suppress_each_other (cfg : Flags) (ev1 ev2 : Event)
    (t1 t2 : time.Time) (w1 w2 : World) (rest : list input) (st st1 : State) :
  Name ev1 ≠ Name ev2 \/ Op_String (Op ev1) ≠ Op_String (Op ev2) ->
  handleEvent cfg w1 ev1 (debugln cfg ["watcher event:"; Name ev1; Op_String (Op ev1)] st)
  = (st1, None) ->
  handleEvents cfg (FromEvents ev1 t1 w1 :: FromEvents ev2 t2 w2 :: rest) st
  = match handleEvent cfg w2 ev2
            (debugln cfg ["watcher event:"; Name ev2; Op_String (Op ev2)] st1) with
    | (st2, Some err) =>
        (<[throttleKey ev2 := t2]> (<[throttleKey ev1 := t1]> ∅), st2, Returned (Some err))
    | (st2, None) =>
        handleEventsFrom cfg rest (<[throttleKey ev2 := t2]> (<[throttleKey ev1 := t1]> ∅)) st2
    end.
Proof.
  intros Hdiff Hfirst. unfold handleEvents.
  rewrite handleEventsFrom_accept by reflexivity. rewrite Hfirst.
  apply handleEventsFrom_accept. unfold tooSoon.
  rewrite lookup_insert_ne; [by rewrite lookup_empty|].
  rewrite throttleKey_inj. intros [Hn Ho]. by destruct Hdiff.
Qed.

Lemma different_events_do_not_suppress_each_other_witness :
  goTests (log (handleEvents plainFlags
                  [FromEvents createZ 0 (worldOf (Exited 0));
                   FromEvents {| Name := "/proj/a/z.go"; Op := Write |} 0 (worldOf (Exited 0))]
                  start).1.2)
  = [GoTest "/proj/a" (testArgs plainFlags); GoTest "/proj/a" (testArgs plainFlags)].
Proof.
  rewrite (different_events_do_not_suppress_each_other plainFlags createZ
             {| Name := "/proj/a/z.go"; Op := Write |} 0 0 (worldOf (Exited 0))
             (worldOf (Exited 0)) [] start
             (afterGoTest plainFlags "/proj/a" (emit (StatCall "/proj/a/z.go") start))).
  - reflexivity.
  - right. by vm_compute.
  - reflexivity.
Defined.

(** ** Startup on any tree and any watcher *)

(** A property of the state that the walk function keeps, on the
    directories of the tree, is kept by the walk. *)
Section WalkInvariant.

Context {S : Type}.
Variable Inv : S -> Prop.
Variable OnDir : string -> Prop.
Variable fn : WalkFunc S.

Hypothesis Hfn : forall path info err st,
  (info = Some true -> OnDir path) -> Inv st -> Inv (fn path info err st).1.

Lemma walk_invariant (e : entry) :
  forall path st, (forall p, In p (dirPaths path e) -> OnDir p) ->
    Inv st -> Inv (walk fn path e st).1.
Proof.
  induction e as [|err|readErr entries IH] using entry_tree_ind; intros path st Hdirs Hst.
  - apply Hfn; [discriminate|done].
  - apply Hfn; [discriminate|done].
  - rewrite walk_Dir.
    assert (H1 : Inv (fn path (Some true) readErr st).1).
    { apply Hfn; [|done]. intros _. apply Hdirs. by left. }
    destruct (fn path (Some true) readErr st) as [s1 e1]. cbn [fst] in H1.
    destruct (bool_decide (readErr ≠ None) || bool_decide (e1 ≠ None)); [done|].
    assert (Hsub : forall p,
              In p (flat_map (fun ne => dirPaths (filepath.Join path ne.1) ne.2) entries) ->
              OnDir p).
    { intros p Hp. apply Hdirs. by right. }
    clear Hdirs Hst. revert s1 H1.
    induction IH as [|[name info] names Hinfo _ IHnames]; intros s1 H1; [done|].
    cbn [snd flat_map fst] in Hinfo, Hsub.
    assert (Hrest : forall s, Inv s -> Inv (walkNames (walk fn) fn path names s).1).
    { intros s Hs. apply IHnames; [|done]. intros p Hp. apply Hsub, in_or_app. by right. }
    destruct info as [|readErr' entries'|err].
    + rewrite walkNames_found by done.
      assert (H2 : Inv (walk fn (filepath.Join path name) File s1).1).
      { apply Hinfo; [|done]. intros p Hp. apply Hsub, in_or_app. by left. }
      destruct (walk fn _ File s1) as [s2 [e2|]]; cbn [fst] in H2; [done|by apply Hrest].
    + rewrite walkNames_found by done.
      assert (H2 : Inv (walk fn (filepath.Join path name) (Dir readErr' entries') s1).1).
      { apply Hinfo; [|done]. intros p Hp. apply Hsub, in_or_app. by left. }
      destruct (walk fn _ (Dir _ _) s1) as [s2 [e2|]]; cbn [fst] in H2; [|by apply Hrest].
      cbn [entryIsDir negb orb]. destruct (bool_decide _); [done|by apply Hrest].
    + rewrite walkNames_Gone.
      assert (H2 : Inv (fn (filepath.Join path name) None (Some err) s1).1).
      { apply Hfn; [discriminate|done]. }
      destruct (fn _ None (Some err) s1) as [s2 [e2|]]; cbn [fst] in H2; [|by apply Hrest].
      destruct (decide _); [done|by apply Hrest].
Qed.

Lemma Walk_invariant (root : string) (tree : entry) (st : S) :
  (forall p, In p (dirPaths root tree) -> OnDir p) -> Inv st -> Inv (Walk root tree fn st).1.
Proof.
  intros Hdirs Hst. unfold Walk.
  pose proof (walk_invariant tree root st Hdirs Hst) as H.
  destruct (walk fn root tree st) as [s [[]|]]; exact H.
Qed.

End WalkInvariant.

Lemma initWatches_state (cfg : Flags) (sw : Startup) (wd : string) (st : State) :
  (initWatches cfg sw wd st).1
  = match NewWatcher sw with
    | Some _ => st
    | None => (Walk wd (Root sw) (initWatchesFn cfg (AddAtStart sw)) st).1
    end.
Proof.
  unfold initWatches. destruct (NewWatcher sw); [reflexivity|].
  by destruct (Walk _ _ _ _) as [s [e|]].
Qed.

(** X12: on any tree, with any watcher and whether startup succeeds or
    fails, the only paths startup adds to the watches are directories of the
    tree whose own base name is not vendor and which the watcher took: a
    file is never watched. *)
Theorem startup_only_watches_directories (cfg : Flags) (sw : Startup) (wd : string)
    (st : State) (path : string) :
  path ∈ watches (initWatches cfg sw wd st).1 ->
  path ∈ watches st \/
  (In path (dirPaths wd (Root sw)) /\ filepath.Base path ≠ "vendor" /\
   AddAtStart sw path = None).
Proof.
  rewrite initWatches_state. destruct (NewWatcher sw); [by left|].
  revert path.
  apply (Walk_invariant
           (fun s => forall path, path ∈ watches s -> path ∈ watches st \/
              (In path (dirPaths wd (Root sw)) /\ filepath.Base path ≠ "vendor" /\
               AddAtStart sw path = None))
           (fun p => In p (dirPaths wd (Root sw)))); [|done|by left].
  intros p info err s Hdir Hs. unfold initWatchesFn.
  destruct err as [err|]; [exact Hs|].
  destruct info as [[|]|]; [|exact Hs..].
  change (negb (default false (Some true))) with false. cbv iota.
  destruct (decide _) as [Hv|Hv]; [exact Hs|].
  unfold watcher_Add. destruct (AddAtStart sw p) eqn:Ha; cbn [fst watches].
  - intros path. rewrite ?watches_emit, watches_debugln. apply Hs.
  - intros path. rewrite ?watches_emit, watches_debugln, elem_of_union, elem_of_singleton.
    intros [->|Hp]; [|by apply Hs]. right. split; [by apply Hdir|done].
Qed.

Lemma startup_only_watches_directories_witness :
  "/proj/a" ∈ watches start \/
  (In "/proj/a" (dirPaths "/proj" (Root projStartup)) /\ filepath.Base "/proj/a" ≠ "vendor" /\
   AddAtStart projStartup "/proj/a" = None).
Proof.
  apply (startup_only_watches_directories plainFlags projStartup "/proj" start "/proj/a").
  apply elem_of_elements.
  replace (elements (watches (initWatches plainFlags projStartup "/proj" start).1))
    with ["/proj/a"; "/proj/vendor/pkg"; "/proj"] by (by vm_compute).
  rewrite list_elem_of_In. simpl. tauto.
Defined.

(** X13: without the debug flag startup writes nothing to the diagnostic
    stream, on any tree and also when it fails. *)
Theorem startup_is_silent_without_debug (cfg : Flags) (sw : Startup) (wd : string) (st : State) :
  flagDebug cfg = false ->
  stderrLines (log (initWatches cfg sw wd st).1) = stderrLines (log st).
Proof.
  intros Hd. rewrite initWatches_state. destruct (NewWatcher sw); [reflexivity|].
  apply (Walk_invariant (fun s => stderrLines (log s) = stderrLines (log st))
           (fun _ => True)); [|done|done].
  intros p info err s _ Hs. unfold initWatchesFn, debugln, watcher_Add. rewrite Hd.
  destruct err as [err|]; [exact Hs|].
  destruct (negb (default false info)); [exact Hs|].
  destruct (decide _); [exact Hs|].
  destruct (AddAtStart sw p); cbn [fst log emit]; unfold stderrLines in *;
    by rewrite List.filter_app, Hs, app_nil_r.
Qed.

Lemma startup_is_silent_without_debug_witness :
  flagDebug plainFlags = false /\
  stderrLines (log (initWatches plainFlags projStartup "/proj" start).1) = stderrLines (log start).
Proof.
  split; [reflexivity|].
  by apply (startup_is_silent_without_debug plainFlags projStartup "/proj" start).
Defined.

(** ** Startup when the watcher refuses a directory or the tree cannot be read *)

Lemma addWatches_app (cfg : Flags) (add : string -> option error) (l1 l2 : list string)
    (st : State) :
  addWatches cfg add (l1 ++ l2) st
  = match addWatches cfg add l1 st with
    | (st', None) => addWatches cfg add l2 st'
    | failed => failed
    end.
Proof.
  revert st. induction l1 as [|p l1 IH]; intros st; [reflexivity|].
  cbn [app addWatches].
  destruct (watcher_Add add p _) as [s [e|]]; [reflexivity|apply IH].
Qed.

Lemma addWatches_error (cfg : Flags) (add : string -> option error) (l : list string)
    (st : State) (err : error) :
  (addWatches cfg add l st).2 = Some err ->
  exists cause, err = withMessage cause "failed to add watch to %s".
Proof.
  revert st. induction l as [|p l IH]; intros st; [discriminate|].
  cbn [addWatches]. destruct (watcher_Add add p _) as [s [e|]]; [|apply IH].
  intros [= <-]. by exists e.
Qed.

Lemma addWatches_all (cfg : Flags) (add : string -> option error) (l : list string) (st : State) :
  Forall (fun p => add p = None) l ->
  exists st', addWatches cfg add l st = (st', None) /\ addedWatches l st st'.
Proof.
  intros Hall. revert st. induction Hall as [|p l Hp _ IH]; intros st.
  - exists st. split; [reflexivity|]. split; [|by rewrite app_nil_r].
    by rewrite list_to_set_nil, (left_id_L ∅ (∪)).
  - cbn [addWatches]. unfold watcher_Add. rewrite Hp.
    destruct (IH {| watches := {[p]} ∪ watches (emit (WatchAdd p) (debugln cfg ["Adding watch:"; p] st));
                    log := log (emit (WatchAdd p) (debugln cfg ["Adding watch:"; p] st)) |})
      as (st' & -> & Hw & Hl).
    exists st'. split; [reflexivity|]. cbn [watches log] in Hw, Hl. split.
    + rewrite Hw, watches_emit, watches_debugln, list_to_set_cons.
      by rewrite (assoc_L (∪)), (comm_L (∪) (list_to_set l)).
    + rewrite Hl, log_emit, quiet_app, quiet_debugln. cbn [map]. by rewrite <- app_assoc.
Qed.

Lemma addWatches_refused (cfg : Flags) (add : string -> option error) (l before : list string)
    (path : string) (err : error) (st : State) :
  firstRefused add l before path err ->
  exists st', addWatches cfg add l st = (st', Some (withMessage err "failed to add watch to %s")) /\
    watches st' = list_to_set before ∪ watches st /\
    quiet (log st') = quiet (log st) ++ map WatchAdd (before ++ [path]).
Proof.
  intros (after & -> & Hbefore & Hpath). rewrite addWatches_app.
  destruct (addWatches_all cfg add before st Hbefore) as (s1 & -> & Hw & Hl).
  cbn [addWatches]. unfold watcher_Add. rewrite Hpath. eexists. split; [reflexivity|].
  split.
  - by rewrite watches_emit, watches_debugln.
  - rewrite log_emit, quiet_app, quiet_debugln, Hl, map_app. by rewrite <- app_assoc.
Qed.

Lemma addWatches_nil_iff (cfg : Flags) (add : string -> option error) (l : list string)
    (st : State) :
  (addWatches cfg add l st).2 = None <-> Forall (fun p => add p = None) l.
Proof.
  split.
  - revert st. induction l as [|p l IH]; intros st; [by constructor|].
    cbn [addWatches]. unfold watcher_Add. destruct (add p) eqn:Hp; [discriminate|].
    intros H. constructor; [done|]. by eapply IH.
  - intros Hall. by destruct (addWatches_all cfg add l st Hall) as (st' & -> & _).
Qed.

(** On a tree that can be read the walk adds the watches of the directories
    not called vendor, one after the other, up to the first refusal. *)
Lemma walk_healthy_addWatches (cfg : Flags) (add : string -> option error) (e : entry) :
  healthy e = true ->
  forall path st,
    walk (initWatchesFn cfg add) path e st = addWatches cfg add (watchedAtStart path e) st.
Proof.
  induction e as [|err|readErr entries IH] using entry_tree_ind; intros Hh path st.
  - reflexivity.
  - discriminate.
  - destruct readErr as [err|]; [discriminate|]. cbn [healthy] in Hh.
    rewrite walk_Dir, watchedAtStart_Dir, addWatches_app.
    assert (Hdir : initWatchesFn cfg add path (Some true) None st
                   = addWatches cfg add (List.filter notVendor [path]) st).
    { unfold initWatchesFn, notVendor. cbn [List.filter].
      change (negb (default false (Some true))) with false. cbv iota.
      destruct (decide (filepath.Base path = "vendor")) as [Hv|Hv].
      - by rewrite bool_decide_eq_false_2 by (by intros H; apply H).
      - rewrite bool_decide_eq_true_2 by done. cbn [addWatches].
        by destruct (watcher_Add add path _) as [s [e|]]. }
    rewrite Hdir. destruct (addWatches cfg add (List.filter notVendor [path]) st) as [s1 [e1|]].
    { cbn [orb]. by rewrite (bool_decide_eq_true_2 (Some e1 ≠ None)), orb_true_r. }
    rewrite !bool_decide_eq_false_2 by (by intros H; apply H). cbn [orb].
    clear Hdir st. revert s1.
    induction IH as [|[name info] names Hinfo _ IHnames]; intros s1; [reflexivity|].
    cbn [forallb snd] in Hh, Hinfo. apply andb_prop in Hh as [Hinfo_h Hnames_h].
    rewrite walkNames_found by (by destruct info).
    cbn [flat_map fst snd]. rewrite addWatches_app, Hinfo by done.
    destruct (addWatches cfg add (watchedAtStart (filepath.Join path name) info) s1)
      as [s2 [e2|]] eqn:Hchild; [|by apply IHnames].
    destruct (addWatches_error cfg add _ s1 e2 (f_equal snd Hchild)) as [cause ->].
    by rewrite bool_decide_eq_true_2, orb_true_r.
Qed.

Lemma initWatchesFn_error (cfg : Flags) (add : string -> option error) (path : string)
    (info : option bool) (walkErr : option error) (st : State) (err : error) :
  (initWatchesFn cfg add path info walkErr st).2 = Some err ->
  exists cause msg, err = withMessage cause msg.
Proof.
  unfold initWatchesFn. destruct walkErr as [e|]; [intros [= <-]; by eexists _, _|].
  destruct (negb _); [discriminate|]. destruct (decide _); [discriminate|].
  destruct (watcher_Add add path _) as [s [e|]]; [|discriminate].
  intros [= <-]. by eexists _, _.
Qed.

(** On a tree that cannot be read the walk returns an error, whatever the
    watcher does. *)
Lemma walk_unhealthy (cfg : Flags) (add : string -> option error) (e : entry) :
  healthy e = false ->
  forall path st, exists st' cause msg,
    walk (initWatchesFn cfg add) path e st = (st', Some (withMessage cause msg)).
Proof.
  induction e as [|err|readErr entries IH] using entry_tree_ind; intros Hh path st.
  - discriminate.
  - by eexists _, _, _.
  - rewrite walk_Dir. destruct readErr as [err|]; [by eexists _, _, _|].
    cbn [healthy] in Hh.
    destruct (initWatchesFn cfg add path (Some true) None st) as [s1 [e1|]] eqn:Hdir.
    { destruct (initWatchesFn_error cfg add path (Some true) None st e1) as (c & m & ->);
        [by rewrite Hdir|].
      cbn [orb]. rewrite (bool_decide_eq_true_2 (Some _ ≠ None)), orb_true_r by done.
      by eexists _, _, _. }
    rewrite !bool_decide_eq_false_2 by (by intros H; apply H). cbn [orb].
    clear Hdir st. revert s1.
    induction IH as [|[name info] names Hinfo _ IHnames]; intros s1; [discriminate|].
    cbn [forallb snd] in Hh, Hinfo.
    destruct info as [|readErr' entries'|err].
    + rewrite walkNames_found by done. cbn [walk initWatchesFn default negb].
      by apply IHnames.
    + rewrite walkNames_found by done.
      destruct (healthy (Dir readErr' entries')) eqn:Hchild.
      * rewrite walk_healthy_addWatches by done.
        destruct (addWatches cfg add _ s1) as [s2 [e2|]] eqn:Hadd; [|by apply IHnames].
        destruct (addWatches_error cfg add _ s1 e2 (f_equal snd Hadd)) as [cause ->].
        cbn [entryIsDir negb orb]. rewrite bool_decide_eq_true_2 by done.
        by eexists _, _, _.
      * destruct (Hinfo eq_refl (filepath.Join path name) s1) as (s2 & c & m & ->).
        cbn [entryIsDir negb orb]. rewrite bool_decide_eq_true_2 by done.
        by eexists _, _, _.
    + rewrite walkNames_Gone. cbn [initWatchesFn].
      destruct (decide _) as [_|Hne]; [by eexists _, _, _|]. by destruct Hne.
Qed.

Lemma initWatches_nil_iff (cfg : Flags) (sw : Startup) (wd : string) (st : State) :
  (initWatches cfg sw wd st).2 = None
  <-> NewWatcher sw = None /\ healthy (Root sw) = true /\
      Forall (fun path => AddAtStart sw path = None) (watchedAtStart wd (Root sw)).
Proof.
  unfold initWatches, Walk. destruct (NewWatcher sw) as [err|].
  { split; [discriminate|by intros [[=] _]]. }
  destruct (healthy (Root sw)) eqn:Hh.
  - rewrite walk_healthy_addWatches by done.
    rewrite <- (addWatches_nil_iff cfg (AddAtStart sw) _ st).
    destruct (addWatches cfg (AddAtStart sw) _ st) as [s [e|]] eqn:Hadd; cbn [snd].
    + destruct (addWatches_error cfg (AddAtStart sw) _ st e (f_equal snd Hadd)) as [cause ->].
      split; [discriminate|by intros (_ & _ & [=])].
    + done.
  - destruct (walk_unhealthy cfg (AddAtStart sw) (Root sw) Hh wd st) as (s & c & m & ->).
    split; [discriminate|by intros (_ & [=] & _)].
Qed.

(** X14: startup succeeds exactly when a watcher can be made, the whole
    tree can be read (every directory listed and every entry inspected, also
    those in and below a directory called vendor) and the watcher takes every
    directory whose own base name is not vendor. *)
Theorem startup_succeeds_iff (cfg : Flags) (sw : Startup) (wd : string) (st : State) :
  (initWatches cfg sw wd st).2 = None
  <-> NewWatcher sw = None /\ healthy (Root sw) = true /\
      Forall (fun path => AddAtStart sw path = None) (watchedAtStart wd (Root sw)).
Proof. apply initWatches_nil_iff. Qed.

(** X15: on a tree that can be read, when the watcher refuses a directory,
    startup stops at the first one it refuses, in the order of the walk: it
    returns the watcher's error under the message "failed to add watch to %s"
    (the verb is not filled in), with the directories ahead of it watched and
    no directory after it tried. *)
Theorem startup_stops_at_first_refused_directory (cfg : Flags) (sw : Startup) (wd : string)
    (st : State) (before : list string) (path : string) (err : error) :
  NewWatcher sw = None ->
  healthy (Root sw) = true ->
  firstRefused (AddAtStart sw) (watchedAtStart wd (Root sw)) before path err ->
  let r := initWatches cfg sw wd st in
  r.2 = Some (withMessage err "failed to add watch to %s") /\
  watches r.1 = list_to_set before ∪ watches st /\
  quiet (log r.1) = quiet (log st) ++ map WatchAdd (before ++ [path]).
Proof.
  intros Hnew Hh Hfirst r. subst r. unfold initWatches, Walk. rewrite Hnew.
  rewrite walk_healthy_addWatches by done.
  destruct (addWatches_refused cfg (AddAtStart sw) _ before path err st Hfirst)
    as (st' & -> & Hw & Hl).
  done.
Qed.

Lemma startup_stops_at_first_refused_directory_witness :
  let refusing := {| NewWatcher := None; Root := projTree;
                     AddAtStart := fun p => if decide (p = "/proj/a")
                                            then Some (errorString "too many open files")
                                            else None |} in
  (initWatches plainFlags refusing "/proj" start).2
  = Some (withMessage (errorString "too many open files") "failed to add watch to %s") /\
  quiet (log (initWatches plainFlags refusing "/proj" start).1)
  = [WatchAdd "/proj"; WatchAdd "/proj/a"].
Proof.
  intros refusing.
  destruct (startup_stops_at_first_refused_directory plainFlags refusing "/proj" start
              ["/proj"] "/proj/a" (errorString "too many open files")) as (Hr & _ & Hl).
  - reflexivity.
  - reflexivity.
  - exists ["/proj/vendor/pkg"]. split; [by vm_compute|]. split; [|reflexivity].
    constructor; [reflexivity|constructor].
  - split; [exact Hr|exact Hl].
Defined.

(** ** [main] and the earlier version *)

(** X16: [main] calls [os.Exit(1)] before starting the loops exactly when
    [initWatches] fails, and then the last thing it did is to write the
    message of the error that [initWatches] returned to the diagnostic
    stream, with or without the debug flag. A failure of [os.Getwd] alone
    does not stop it: it reports it, goes on to walk the path that [Getwd]
    returned and hands that same path to the reader. *)
Theorem main_exits_exactly_when_startup_fails (cfg : Flags) (mw : MainWorld) (st : State) :
  let wd := (Getwd mw).1 in
  let st0 :=
    match (Getwd mw).2 with
    | Some err => emit (Stderr (filepath.joinWith " " ["failed to get working dir"; Error err])) st
    | None => st
    end in
  let i := initWatches cfg (AtStart mw) wd st0 in
  let r := mainStart cfg mw st in
  (r.2 = inr wd <->
     NewWatcher (AtStart mw) = None /\ healthy (Root (AtStart mw)) = true /\
     Forall (fun path => AddAtStart (AtStart mw) path = None)
       (watchedAtStart wd (Root (AtStart mw)))) /\
  (r.2 = inr wd -> i.2 = None /\ r.1 = i.1) /\
  (r.2 ≠ inr wd ->
     exists err, i.2 = Some err /\ r = (emit (Stderr (Error err)) i.1, inl 1) /\
       last (log r.1) = Some (Stderr (Error err))).
Proof.
  cbn zeta. unfold mainStart. destruct (Getwd mw) as [wd gerr]. cbn [fst snd].
  set (st0 := match gerr with
              | Some err => emit (Stderr (filepath.joinWith " " ["failed to get working dir"; Error err])) st
              | None => st
              end).
  pose proof (initWatches_nil_iff cfg (AtStart mw) wd st0) as Hiff.
  destruct (initWatches cfg (AtStart mw) wd st0) as [s [err|]]; cbn [fst snd] in *.
  - split; [|split].
    + split; [discriminate|]. intros H. apply Hiff in H. discriminate.
    + discriminate.
    + intros _. exists err. split; [reflexivity|]. split; [reflexivity|].
      by rewrite log_emit, last_snoc.
  - split; [|split].
    + split; [intros _; by apply Hiff|done].
    + done.
    + by intros [].
Qed.

(** X17: the earlier version of the file, which runs the command inside
    [runTestsForFile] and asks for the working directory inside
    [initWatches], behaves as [main.go] does: the same event loop on all
    inputs, and the same startup whenever [os.Getwd] succeeds. *)
Theorem earlier_version_behaves_the_same (cfg : Flags) (inputs : list input)
    (throttle : gmap string time.Time) (sw : Startup) (wd : string) (st : State) :
  part_000.handleEventsFrom cfg inputs throttle st = handleEventsFrom cfg inputs throttle st /\
  part_000.initWatches cfg (wd, None) sw st = initWatches cfg sw wd st.
Proof.
  split; [|reflexivity].
  assert (Hev : forall w ev s, part_000.handleEvent cfg w ev s = handleEvent cfg w ev s)
    by reflexivity.
  revert throttle st. induction inputs as [|i inputs IH]; intros throttle st; [reflexivity|].
  destruct i as [[err|]|ev now w]; [reflexivity..|].
  cbn [part_000.handleEventsFrom handleEventsFrom].
  destruct (tooSoon throttle (throttleKey ev) now); [apply IH|].
  rewrite Hev. destruct (handleEvent cfg w ev _) as [s [err|]]; [reflexivity|apply IH].
Qed.
